(** * Health metrics over the GitHub API: an embedding of [githubapi.py]

    The class [GitHubAPI] computes project metrics by calling the REST and
    GraphQL endpoints of the hosting platform and aggregating the answers
    into tables.  Every method is embedded as a function in a small monad
    that records the requests issued, in order, and carries the Python
    exception a run ends with.  The remote platform is a function from
    requests to responses; the unbounded [while] loops take a fuel argument
    and report [OutOfFuel] when it runs out. *)

From Stdlib Require Import ZArith QArith String Ascii List Sorted Lia Lqa.
From stdpp Require Import base option list strings gmap pretty.
Import ListNotations.

Close Scope Q_scope.
Open Scope string_scope.
Open Scope list_scope.
Open Scope Z_scope.
Open Scope nat_scope.

(** ** Exceptions, outcomes and the request log *)

(** The built-in exception classes a run of the module can end with.
    [InsufficientDataError] stands for an explicit empty-input error; no
    statement of the source raises it. *)
Inductive PyError : Type :=
  | IndexError
  | KeyError
  | NameError
  | AttributeError
  | TypeError
  | ValueError
  | ZeroDivisionError
  | InsufficientDataError.

Inductive outcome (A : Type) : Type :=
  | Done (a : A)
  | Raised (e : PyError)
  | OutOfFuel.

Arguments Done {A} a.
Arguments Raised {A} e.
Arguments OutOfFuel {A}.

Inductive Method : Type := GET | POST.

(** One call of [requests.get] or [requests.post]: the URL, the basic-auth
    pair and, for a POST, the text sent under the key ["query"]. *)
Record Request : Type := mkRequest {
  method : Method;
  url : string;
  auth : string * string;
  payload : option string
}.

(** What the code reads off a [requests.Response]: the decoded body and the
    parsed [Link] header, a dict from relation name to a dict of fields. *)
Record Response (J : Type) : Type := mkResponse {
  json : J;
  links : gmap string (gmap string string)
}.

Arguments mkResponse {J} json links.
Arguments json {J} r.
Arguments links {J} r.

(** A computation takes the log of the requests issued so far and returns
    the extended log with its outcome; the log survives an exception. *)
Definition Net (A : Type) : Type := list Request -> list Request * outcome A.

#[global] Instance Net_ret : MRet Net := fun A a log => (log, Done a).

#[global] Instance Net_bind : MBind Net := fun A B f m log =>
  match m log with
  | (log', Done a) => f a log'
  | (log', Raised e) => (log', Raised e)
  | (log', OutOfFuel) => (log', OutOfFuel)
  end.

Definition raise {A : Type} (e : PyError) : Net A := fun log => (log, Raised e).

Definition out_of_fuel {A : Type} : Net A := fun log => (log, OutOfFuel).

Definition lift {A : Type} (o : outcome A) : Net A := fun log => (log, o).

Definition requests_get {J : Type} (server : Request -> Response J)
    (u : string) (a : string * string) : Net (Response J) :=
  fun log => let rq := mkRequest GET u a None in (log ++ [rq], Done (server rq)).

Definition requests_post {J : Type} (server : Request -> Response J)
    (u : string) (a : string * string) (q : string) : Net (Response J) :=
  fun log => let rq := mkRequest POST u a (Some q) in (log ++ [rq], Done (server rq)).

(** The double quote, for the texts that contain one. *)
Definition dquote : string := String (ascii_of_nat 34) EmptyString.

(** ** Tables: dates, grouping and integer columns *)

(** A parsed timestamp is a [datetime64[ns]] value: nanoseconds since the
    epoch.  [dt.normalize()] sets the time of day to midnight. *)
Definition day_ns : Z := 86400 * 1000000000.

Definition normalize (t : Z) : Z := (t - t mod day_ns)%Z.

(** [groupby(key).size()] and [groupby(key).key.count()]: one row per
    distinct key, in increasing key order, with the number of rows that
    carry the key.  [tally] adds one occurrence of [k] to such a table. *)
Fixpoint tally {K : Type} (cmp : K -> K -> comparison) (k : K)
    (rows : list (K * nat)) : list (K * nat) :=
  match rows with
  | [] => [(k, 1)]
  | (k', c) :: rest =>
      match cmp k k' with
      | Lt => (k, 1) :: (k', c) :: rest
      | Eq => (k', S c) :: rest
      | Gt => (k', c) :: tally cmp k rest
      end
  end.

Definition groupby_size {K : Type} (cmp : K -> K -> comparison)
    (keys : list K) : list (K * nat) :=
  fold_left (fun rows k => tally cmp k rows) keys [].

(** Reading such a table: the count of the rows with key [k], and the
    number of times [k] stands in a column of keys. *)
Fixpoint row_count (k : Z) (rows : list (Z * nat)) : nat :=
  match rows with
  | [] => 0
  | (k', c) :: rest => (if (k' =? k)%Z then c else 0) + row_count k rest
  end.

Fixpoint occurrences (k : Z) (keys : list Z) : nat :=
  match keys with
  | [] => 0
  | k' :: rest => (if (k' =? k)%Z then 1 else 0) + occurrences k rest
  end.

(** The integer columns of a frame are [int64]: arithmetic wraps. *)
Definition wrap64 (z : Z) : Z := ((z + 2 ^ 63) mod 2 ^ 64 - 2 ^ 63)%Z.

Fixpoint cumsum64_from (acc : Z) (l : list Z) : list Z :=
  match l with
  | [] => []
  | x :: rest => let acc' := wrap64 (acc + x) in acc' :: cumsum64_from acc' rest
  end.

Definition cumsum64 (l : list Z) : list Z :=
  match l with
  | [] => []
  | x :: rest => x :: cumsum64_from x rest
  end.

Definition sum_Z (l : list Z) : Z := fold_right Z.add 0%Z l.

(** ** Text *)

(** A Python [str] whose characters matter one by one: the sequence of its
    Unicode code points.  [text] gives the code points of a literal written
    in ASCII. *)
Definition pystr : Type := list N.

Definition text (s : string) : pystr :=
  map (fun a => N.of_nat (nat_of_ascii a)) (list_ascii_of_string s).

(** ** The JSON records the code reads *)

Record Issue : Type := mkIssue { created_at : string }.

(** A commit of the REST listing; the code reads ['commit']['author']['date']. *)
Record Commit : Type := mkCommit { commit_author_date : string }.

Record Contributor : Type := mkContributor { login : string; contributions : Z }.

(** One [[timestamp, additions, deletions]] triple of [stats/code_frequency]. *)
Record WeekStat : Type := mkWeekStat { week : Z; week_additions : Z; week_deletions : Z }.

(** A row of the frame [lines_of_code_changed] returns. *)
Record LinesRow : Type := mkLinesRow {
  date : Z;
  additions : Z;
  deletions : Z;
  delta : Z;
  total_lines : Z
}.

(** One edge of the GraphQL commit history and one page of it. *)
Record Edge : Type := mkEdge { cursor : string; email : string }.

Record History : Type := mkHistory { hasNextPage : bool; edges : list Edge }.

Record BusFactor : Type := mkBusFactor { worst : nat; best : nat }.

(** A contributor as PyGithub returns it; [name] is [None] when unset. *)
Record NamedUser : Type := mkNamedUser { name : option pystr }.

Record PullRequest : Type := mkPullRequest {
  number : Z;
  state : string;
  pull_created_at : string
}.

Record ReviewRow : Type := mkReviewRow {
  pullNum : Z;
  row_state : string;
  createdAt : string;
  num_reviews : nat
}.

(** ** Strings *)

(** [str.isspace] on one character: the white space of Unicode, that is
    U+0009 to U+000D, U+001C to U+0020, U+0085, U+00A0, U+1680, U+2000 to
    U+200A, U+2028, U+2029, U+202F, U+205F and U+3000. *)
Definition py_isspace (c : N) : bool :=
  (((9 <=? c) && (c <=? 13)) || ((28 <=? c) && (c <=? 32)) || (c =? 133) || (c =? 160)
   || (c =? 5760) || ((8192 <=? c) && (c <=? 8202)) || (c =? 8232) || (c =? 8233)
   || (c =? 8239) || (c =? 8287) || (c =? 12288))%N.

(** [s.split()] with no separator: the maximal runs of characters that are
    no white space, in order; [cur] is the run being read. *)
Fixpoint py_split_from (cur : pystr) (s : pystr) : list pystr :=
  match s with
  | [] => match cur with [] => [] | _ => [cur] end
  | c :: rest =>
      if py_isspace c
      then match cur with
           | [] => py_split_from [] rest
           | _ => cur :: py_split_from [] rest
           end
      else py_split_from (cur ++ [c]) rest
  end.

Definition py_split (s : pystr) : list pystr := py_split_from [] s.

(** The GraphQL document, [%] applied to [(repo, owner, cursor)]: the text
    before the third slot, and the text after it. *)
Definition query_head (repo owner : string) : string :=
  "
                        query{
                          repository(name: "
  +:+ dquote
  +:+ repo
  +:+ dquote
  +:+ ", owner: "
  +:+ dquote
  +:+ owner
  +:+ dquote
  +:+ ") {
                            ref(qualifiedName: "
  +:+ dquote
  +:+ "master"
  +:+ dquote
  +:+ ") {
                              target {
                                ... on Commit {
                                  id
                                  history(first: 100".

Definition query_tail : string :=
  ") {
                                    pageInfo {
                                      hasNextPage
                                    }
                                    edges {
                                      cursor
                                      node {
                                        author {
                                          email
                                        }
                                      }
                                    }
                                  }
                                }
                              }
                            }
                          }
                        }
                        ".

Definition query_text (repo owner cursor : string) : string :=
  query_head repo owner +:+ cursor +:+ query_tail.

(** ** The metrics of [GitHubAPI] *)

Section GitHubAPI.

(** [self.GITHUB_API_KEY], bound by [__init__]. *)
Variable GITHUB_API_KEY : string.

(** [pd.to_datetime] on one cell of text: the timestamp in nanoseconds, or
    [None] when pandas rejects the text (it raises a [ValueError]). *)
Variable to_datetime : string -> option Z.

Fixpoint to_datetime_column (cells : list string) : outcome (list Z) :=
  match cells with
  | [] => Done []
  | s :: rest =>
      match to_datetime s with
      | None => Raised ValueError
      | Some t =>
          match to_datetime_column rest with
          | Done ts => Done (t :: ts)
          | Raised e => Raised e
          | OutOfFuel => OutOfFuel
          end
      end
  end.

(** The two lines every per-day metric ends with:
    [df['created_at'] = pd.to_datetime(df['created_at']).dt.normalize()] and
    [df.groupby('created_at').size().reset_index(name='count')]. *)
Definition count_per_day (cells : list string) : outcome (list (Z * nat)) :=
  match to_datetime_column cells with
  | Done ts => Done (groupby_size Z.compare (map normalize ts))
  | Raised e => Raised e
  | OutOfFuel => OutOfFuel
  end.

Definition basic_auth : string * string := ("user", GITHUB_API_KEY).

(** The requests as the log records them. *)
Definition get_request (u : string) : Request := mkRequest GET u basic_auth None.

Definition graphql_request (q : string) : Request :=
  mkRequest POST "https://api.github.com/graphql" basic_auth (Some q).

(** *** closed_issues *)

Definition closed_issues_url (owner repo : string) : string :=
  "https://api.github.com/repos/" +:+ owner +:+ "/" +:+ repo +:+ "/issues?state=closed".

Definition closed_issues (server : Request -> Response (list Issue))
    (owner repo : string) : Net (list (Z * nat)) :=
  let u := closed_issues_url owner repo in
  response ← requests_get server u basic_auth;
  let df := map created_at (json response) in
  lift (count_per_day df).

(** *** code_commits *)

Definition code_commits_url (owner repo : string) (i : nat) : string :=
  "https://api.github.com/repos/" +:+ owner +:+ "/" +:+ repo +:+ "/commits?page=" +:+ pretty i.

(** The [while True] loop: [i] is the page number, [acc] the list [json]. *)
Fixpoint code_commits_pages (fuel : nat) (server : Request -> Response (list Commit))
    (owner repo : string) (i : nat) (acc : list Commit) : Net (list Commit) :=
  match fuel with
  | 0 => out_of_fuel
  | S fuel' =>
      response ← requests_get server (code_commits_url owner repo i) basic_auth;
      let j := json response in
      if length j =? 0 then mret acc
      else code_commits_pages fuel' server owner repo (i + 1) (acc ++ j)
  end.

Definition code_commits_fetch (fuel : nat) (server : Request -> Response (list Commit))
    (owner repo : string) : Net (list Commit) :=
  code_commits_pages fuel server owner repo 0 [].

(** [DataFrame.from_dict] of no row has no column, so the assignment
    [df.columns = ['created_at']] raises a [ValueError] on an empty history. *)
Definition code_commits (fuel : nat) (server : Request -> Response (list Commit))
    (owner repo : string) : Net (list (Z * nat)) :=
  commits ← code_commits_fetch fuel server owner repo;
  let df := map commit_author_date commits in
  match df with
  | [] => raise ValueError
  | _ => lift (count_per_day df)
  end.

(** *** contributors *)

Definition contributors_url (owner repo : string) : string :=
  "https://api.github.com/repos/" +:+ owner +:+ "/" +:+ repo +:+ "/contributors".

Definition contributors (server : Request -> Response (list Contributor))
    (owner repo : string) : Net (list (string * Z)) :=
  let u := contributors_url owner repo in
  response ← requests_get server u basic_auth;
  mret (map (fun c => (login c, contributions c)) (json response)).

(** *** lines_of_code_changed *)

Definition code_frequency_url (owner repo : string) : string :=
  "https://api.github.com/repos/" +:+ owner +:+ "/" +:+ repo +:+ "/stats/code_frequency".

(** The column assignments, in the order of the source: [deletions] is
    overwritten first, and [delta] reads the overwritten column. *)
Definition lines_frame (stats : list WeekStat) : list LinesRow :=
  let col_date := map (fun w => (week w * 1000000000)%Z) stats in
  let col_additions := map week_additions stats in
  let col_deletions := map (fun w => wrap64 (week_deletions w * -1)) stats in
  let col_delta := zip_with (fun a d => wrap64 (a - d)) col_additions col_deletions in
  let col_total := cumsum64 col_delta in
  zip_with (fun '(dt, a, d) '(dl, t) => mkLinesRow dt a d dl t)
    (zip (zip col_date col_additions) col_deletions)
    (zip col_delta col_total).

(** The same frame read row by row: the rows after the first, with [acc]
    the running total before them. *)
Fixpoint rows_from (acc : Z) (stats : list WeekStat) : list LinesRow :=
  match stats with
  | [] => []
  | w :: rest =>
      let d := wrap64 (week_deletions w * -1) in
      let dl := wrap64 (week_additions w - d) in
      let acc' := wrap64 (acc + dl) in
      mkLinesRow (week w * 1000000000) (week_additions w) d dl acc' :: rows_from acc' rest
  end.

Definition lines_of_code_changed (server : Request -> Response (list WeekStat))
    (owner repo : string) : Net (list LinesRow) :=
  let u := code_frequency_url owner repo in
  response ← requests_get server u basic_auth;
  mret (lines_frame (json response)).

(** *** open_issues *)

Definition open_issues_url (owner repo : string) : string :=
  "https://api.github.com/repos/" +:+ owner +:+ "/" +:+ repo +:+ "/issues?state=all".

(** The [while True] loop: [u] is the variable [url], [acc] the list [issues]. *)
Fixpoint open_issues_pages (fuel : nat) (server : Request -> Response (list Issue))
    (u : string) (acc : list Issue) : Net (list Issue) :=
  match fuel with
  | 0 => out_of_fuel
  | S fuel' =>
      response ← requests_get server u basic_auth;
      let acc := acc ++ json response in
      match links response !! "next" with
      | None => mret acc
      | Some next =>
          match next !! "url" with
          | None => raise KeyError
          | Some u' => open_issues_pages fuel' server u' acc
          end
      end
  end.

Definition open_issues_fetch (fuel : nat) (server : Request -> Response (list Issue))
    (owner repo : string) : Net (list Issue) :=
  open_issues_pages fuel server (open_issues_url owner repo) [].

Definition open_issues (fuel : nat) (server : Request -> Response (list Issue))
    (owner repo : string) : Net (list (Z * nat)) :=
  issues ← open_issues_fetch fuel server owner repo;
  lift (count_per_day (map created_at issues)).

(** *** bus_factor *)

Definition graphql_url : string := "https://api.github.com/graphql".

(** The text assigned to [cursor] after a page: [", after: \"%s\""]. *)
Definition after_argument (c : string) : string :=
  ", after: " +:+ dquote +:+ c +:+ dquote.

(** The [while hasNextPage] loop.  [cur] is the variable [cursor] and [acc]
    the e-mail column of [commit_count].  [commits[-1]] raises an
    [IndexError] on a page without edges. *)
Fixpoint bus_factor_pages (fuel : nat) (server : Request -> Response History)
    (owner repo : string) (cur : string) (acc : list string) : Net (list string) :=
  match fuel with
  | 0 => out_of_fuel
  | S fuel' =>
      r ← requests_post server graphql_url basic_auth (query_text repo owner cur);
      let data := json r in
      let more := hasNextPage data in
      let commits := edges data in
      let acc := acc ++ map email commits in
      match last commits with
      | None => raise IndexError
      | Some e =>
          let cur := after_argument (cursor e) in
          if more then bus_factor_pages fuel' server owner repo cur acc
          else mret acc
      end
  end.

Definition bus_factor_fetch (fuel : nat) (server : Request -> Response History)
    (owner repo : string) : Net (list string) :=
  bus_factor_pages fuel server owner repo "" [].

(** [sort_values]: insertion sort under the order [le]. *)
Fixpoint insert_sorted (le : Q -> Q -> bool) (x : Q) (l : list Q) : list Q :=
  match l with
  | [] => [x]
  | y :: rest => if le x y then x :: y :: rest else y :: insert_sorted le x rest
  end.

Definition sort_values (ascending : bool) (l : list Q) : list Q :=
  let le := if ascending then Qle_bool else (fun x y => Qle_bool y x) in
  fold_right (insert_sorted le) [] l.

Fixpoint cumsum_from (acc : Q) (l : list Q) : list Q :=
  match l with
  | [] => []
  | x :: rest => let acc' := (acc + x)%Q in acc' :: cumsum_from acc' rest
  end.

Definition cumsum (l : list Q) : list Q :=
  match l with
  | [] => []
  | x :: rest => x :: cumsum_from x rest
  end.

(** The counting loops: [i] is bumped for every number read, and the loop
    breaks at the first number that is at least [threshold]. *)
Fixpoint count_until (threshold : Q) (nums : list Q) (i : nat) : nat :=
  match nums with
  | [] => i
  | num :: rest =>
      let i := i + 1 in
      if Qle_bool threshold num then i else count_until threshold rest i
  end.

(** [df.groupby(['email']).email.count() / ....sum() * 100]: the share of
    each address, in per cent.  Shares are exact rationals here; the source
    computes them in binary floating point, so a running sum within
    rounding distance of the threshold can compare differently there. *)
Definition shares (emails : list string) : list Q :=
  let counts := map snd (groupby_size String.compare emails) in
  let total := fold_right Nat.add 0 counts in
  map (fun c => (inject_Z (Z.of_nat c) / inject_Z (Z.of_nat total) * 100)%Q) counts.

(** The part of [bus_factor] after the loop.  [threshold] is the value
    after [threshold = threshold / 100].  A frame built from no row has no
    column [email]: the attribute access raises. *)
Definition bus_factor_table (threshold : Q) (emails : list string) : outcome BusFactor :=
  match emails with
  | [] => Raised AttributeError
  | _ =>
      let df := shares emails in
      let i := count_until threshold (cumsum (sort_values false df)) 0 in
      let j := count_until threshold (cumsum (sort_values true df)) 0 in
      Done (mkBusFactor i j)
  end.

Definition bus_factor (fuel : nat) (server : Request -> Response History)
    (owner repo : string) (threshold : Q) : Net BusFactor :=
  let threshold := (threshold / 100)%Q in
  emails ← bus_factor_fetch fuel server owner repo;
  lift (bus_factor_table threshold emails).

(** *** contributors_gender *)

(** The loop over the contributors: [names] is the column of the frame
    [names], one row per contributor with a name.  [split()[0]] raises an
    [IndexError] when the name holds no word. *)
Fixpoint first_names (contributors : list NamedUser) (names : list pystr)
    : outcome (list pystr) :=
  match contributors with
  | [] => Done names
  | contributor :: rest =>
      match name contributor with
      | Some n =>
          match py_split n with
          | [] => Raised IndexError
          | word :: _ => first_names rest (names ++ [word])
          end
      | None => first_names rest names
      end
  end.

(** The first word of a contributor's name, when the name is set and
    holds a word. *)
Definition first_word (c : NamedUser) : option pystr :=
  match name c with
  | Some n => head (py_split n)
  | None => None
  end.

(** [left.merge(right, how='inner', on=['name'])]: for each row of the left
    frame, in order, the rows of the right frame with the same name. *)
Definition merge_inner (names : list pystr) (name_gender : list (pystr * pystr))
    : list (pystr * pystr) :=
  flat_map (fun n => filter (fun row => fst row = n) name_gender) names.

(** [get_contributors] stands for [self.api.get_repo(...).get_contributors()]
    and [name_gender] for the table [LocalCSV.name_gender], with its columns
    [name] and [gender]. *)
Definition contributors_gender (get_contributors : string -> list NamedUser)
    (name_gender : list (pystr * pystr)) (owner repo : string)
    : outcome (list (pystr * pystr)) :=
  let contributors := get_contributors (owner +:+ "/" +:+ repo) in
  match first_names contributors [] with
  | Done names => Done (merge_inner names name_gender)
  | Raised e => Raised e
  | OutOfFuel => OutOfFuel
  end.

(** *** code_reviews *)

(** The names bound at module level: the imports and the class. *)
Definition module_globals : gmap string string :=
  list_to_map
    [("json", "module"); ("re", "module"); ("pd", "module"); ("Github", "class");
     ("requests", "module"); ("LocalCSV", "class"); ("logger", "object");
     ("annotate", "function"); ("GitHubAPI", "class")].

(** Reading a name that is no local of the function: the module's binding,
    or a [NameError]. *)
Definition load_global (n : string) : Net string :=
  match module_globals !! n with
  | Some v => mret v
  | None => raise NameError
  end.

Definition pulls_url (owner repo : string) : string :=
  "https://api.github.com/repos/" +:+ owner +:+ "/" +:+ repo +:+ "/pulls".

Definition reviews_url (owner repo : string) (n : Z) : string :=
  "https://api.github.com/repos/" +:+ owner +:+ "/" +:+ repo +:+ "/pulls/" +:+ pretty n
  +:+ "/reviews".

(** The second loop: one request per pull request number, and
    [np.append(countReviews, len(j))] after it. *)
Fixpoint count_reviews {R : Type} (reviews : Request -> Response (list R))
    (owner repo : string) (pullNums : list Z) (countReviews : list nat)
    : Net (list nat) :=
  match pullNums with
  | [] => mret countReviews
  | n :: rest =>
      let url2 := reviews_url owner repo n in
      j ← requests_get reviews url2 basic_auth;
      _ ← load_global "np";
      count_reviews reviews owner repo rest (countReviews ++ [length (json j)])
  end.

(** The first request reads the name [key], which nothing binds. *)
Definition code_reviews {R : Type} (pulls : Request -> Response (list PullRequest))
    (reviews : Request -> Response (list R)) (owner repo : string)
    : Net (list ReviewRow) :=
  let u := pulls_url owner repo in
  key ← load_global "key";
  response ← requests_get pulls u ("user", key);
  let items := json response in
  let dicts := map (fun item => (number item, state item, pull_created_at item)) items in
  let pullNums := map number items in
  countReviews ← count_reviews reviews owner repo pullNums [];
  mret (zip_with (fun '(n, s, c) k => mkReviewRow n s c k) dicts countReviews).

End GitHubAPI.

(** ** Synthetic inputs for the examples *)

(** A parser for the timestamp format of the API, [YYYY-MM-DDTHH:MM:SSZ],
    to instantiate [to_datetime] on concrete inputs. *)
Definition digit_value (c : ascii) : option Z :=
  let n := nat_of_ascii c in
  if (48 <=? n) && (n <=? 57) then Some (Z.of_nat (n - 48)) else None.

Fixpoint digits_value (acc : Z) (s : string) : option Z :=
  match s with
  | EmptyString => Some acc
  | String c rest =>
      match digit_value c with
      | Some d => digits_value (acc * 10 + d) rest
      | None => None
      end
  end.

Definition field (s : string) (start len : nat) : option Z :=
  let f := substring start len s in
  if String.length f =? len then digits_value 0 f else None.

(** Days from 1970-01-01 to the given date of the proleptic Gregorian
    calendar. *)
Definition days_from_civil (y m d : Z) : Z :=
  let y' := if (m <=? 2)%Z then (y - 1)%Z else y in
  let era := (y' / 400)%Z in
  let yoe := (y' - era * 400)%Z in
  let mp := if (m <=? 2)%Z then (m + 9)%Z else (m - 3)%Z in
  let doy := ((153 * mp + 2) / 5 + d - 1)%Z in
  let doe := (yoe * 365 + yoe / 4 - yoe / 100 + doy)%Z in
  (era * 146097 + doe - 719468)%Z.

Definition iso8601_utc (s : string) : option Z :=
  if negb (String.length s =? 20) then None
  else if negb (String.eqb (substring 4 1 s) "-" && String.eqb (substring 7 1 s) "-"
                && String.eqb (substring 10 1 s) "T" && String.eqb (substring 13 1 s) ":"
                && String.eqb (substring 16 1 s) ":" && String.eqb (substring 19 1 s) "Z")
  then None
  else
    y ← field s 0 4; m ← field s 5 2; d ← field s 8 2;
    h ← field s 11 2; mi ← field s 14 2; sec ← field s 17 2;
    if ((1 <=? m) && (m <=? 12) && (1 <=? d) && (d <=? 31)
        && (h <? 24) && (mi <? 60) && (sec <? 60))%Z
    then Some (((days_from_civil y m d * 86400 + h * 3600 + mi * 60 + sec) * 1000000000)%Z)
    else None.

(** A platform that answers each URL of [table] with its pages and link
    relations, and every other request with an empty body. *)
Definition serve {A : Type} (table : list (string * (list A * list (string * string))))
    (rq : Request) : Response (list A) :=
  match list_find (fun entry => fst entry = url rq) table with
  | Some (_, (_, (body, rels))) =>
      mkResponse body (list_to_map (map (fun '(rel, u) => (rel, {[ "url" := u ]})) rels))
  | None => mkResponse [] ∅
  end.

(** A GraphQL endpoint that answers each query text of [table] with its
    page, and every other query with a last page without edges. *)
Definition serve_history (table : list (string * History)) (rq : Request)
    : Response History :=
  match list_find (fun entry => Some (fst entry) = payload rq) table with
  | Some (_, (_, page)) => mkResponse page ∅
  | None => mkResponse (mkHistory false []) ∅
  end.

Definition commit_pages_example : Request -> Response (list Commit) :=
  serve [(code_commits_url "o" "r" 0,
          ([mkCommit "2024-01-01T08:00:00Z"; mkCommit "2024-01-01T23:00:00Z"], []));
         (code_commits_url "o" "r" 1, ([mkCommit "2024-01-02T09:30:00Z"], []))].

Definition issue_pages_example : Request -> Response (list Issue) :=
  serve [(open_issues_url "o" "r",
          ([mkIssue "2024-01-01T08:00:00Z"], [("next", "https://api.example/p2")]));
         ("https://api.example/p2",
          ([mkIssue "2024-01-01T23:00:00Z"], [("next", "https://api.example/p3")]));
         ("https://api.example/p3", ([mkIssue "2024-01-03T00:00:00Z"], []))].

(** The history of a repository with five commits, three by [a], one by
    [b] and one by [c], served in two pages. *)
Definition history_pages_example : Request -> Response History :=
  serve_history
    [(query_text "r" "o" "",
      mkHistory true [mkEdge "c1" "a"; mkEdge "c2" "a"; mkEdge "c3" "a"]);
     (query_text "r" "o" (after_argument "c3"),
      mkHistory false [mkEdge "c4" "b"; mkEdge "c5" "c"])].

(** A repository whose commit history is empty. *)
Definition empty_history_example : Request -> Response History := serve_history [].

(** A chain of pages of the issue listing: the response at [u] names the
    first URL of [rest] as its ["next"] relation, and so on; the response at
    the last URL carries no ["next"] relation. *)
Fixpoint link_chain (key : string) (server : Request -> Response (list Issue))
    (u : string) (rest : list string) : Prop :=
  match rest with
  | [] => links (server (get_request key u)) !! "next" = None
  | u' :: rest' =>
      (exists next, links (server (get_request key u)) !! "next" = Some next
                    /\ next !! "url" = Some u')
      /\ link_chain key server u' rest'
  end.

(** A chain of pages of the commit history: the page asked for with the
    cursor text [cur] says [hasNextPage] and its last edge gives the first
    cursor text of [rest], and so on; the last page has edges and says that
    no page follows. *)
Fixpoint cursor_chain (key : string) (server : Request -> Response History)
    (owner repo : string) (cur : string) (rest : list string) : Prop :=
  let page := json (server (graphql_request key (query_text repo owner cur))) in
  match rest with
  | [] => hasNextPage page = false /\ edges page <> []
  | cur' :: rest' =>
      hasNextPage page = true
      /\ (exists e, last (edges page) = Some e /\ cur' = after_argument (cursor e))
      /\ cursor_chain key server owner repo cur' rest'
  end.

(** The net change of a week as the endpoint states it: the additions plus
    the deletions, which the endpoint gives as a negative number. *)
Definition net_change (w : WeekStat) : Z := (week_additions w + week_deletions w)%Z.

(** A name made of white space only, the empty name included. *)
Definition blank (s : pystr) : bool := forallb py_isspace s.

Definition blank_name (c : NamedUser) : Prop :=
  exists n, name c = Some n /\ blank n = true.

(** A request that carries the credentials of the instance. *)
Definition authenticated (key : string) (rq : Request) : Prop :=
  auth rq = ("user", key).

(** A computation that keeps the log it is given and adds to it only
    requests that satisfy [P], however it ends. *)
Definition sends_only (P : Request -> Prop) {A : Type} (m : Net A) : Prop :=
  forall log, exists new, fst (m log) = log ++ new /\ Forall P new.

(** The sum of a column of shares. *)
Definition Qsum (l : list Q) : Q := fold_right Qplus 0%Q l.

(** The sum of the column [count] of a table. *)
Definition count_sum {K : Type} (rows : list (K * nat)) : nat :=
  fold_right (fun row n => snd row + n) 0 rows.

(** * Properties *)

(** ** The monad *)

Lemma bind_get {J B : Type} (server : Request -> Response J) (u : string)
    (a : string * string) (f : Response J -> Net B) (log : list Request) :
  (requests_get server u a ≫= f) log
  = f (server (mkRequest GET u a None)) (log ++ [mkRequest GET u a None]).
Proof. reflexivity. Qed.

Lemma bind_post {J B : Type} (server : Request -> Response J) (u : string)
    (a : string * string) (q : string) (f : Response J -> Net B) (log : list Request) :
  (requests_post server u a q ≫= f) log
  = f (server (mkRequest POST u a (Some q))) (log ++ [mkRequest POST u a (Some q)]).
Proof. reflexivity. Qed.

Lemma bind_done {A B : Type} (m : Net A) (f : A -> Net B) (log log' : list Request) (a : A) :
  m log = (log', Done a) -> (m ≫= f) log = f a log'.
Proof. intros H. unfold mbind, Net_bind. rewrite H. reflexivity. Qed.

Lemma bind_raised {A B : Type} (m : Net A) (f : A -> Net B) (log log' : list Request)
    (e : PyError) :
  m log = (log', Raised e) -> (m ≫= f) log = (log', Raised e).
Proof. intros H. unfold mbind, Net_bind. rewrite H. reflexivity. Qed.

(** ** Offset pagination in [code_commits] *)

Section OffsetPagination.

Variables (key : string) (server : Request -> Response (list Commit)).
Variables (owner repo : string).

(** The loop started at page [i] with [pages] ahead of it, all of them
    non-empty and followed by an empty page: it asks for each of them and
    for the empty one, and returns what it had with [pages] appended. *)
Lemma code_commits_pages_run (pages : list (list Commit)) :
  forall (fuel i : nat) (acc : list Commit) (log : list Request),
    Forall (fun p => p <> []) pages ->
    (forall k, k <= length pages -> json (server (get_request key (code_commits_url owner repo (i + k)))) = nth k pages []) ->
    length pages < fuel ->
    code_commits_pages key fuel server owner repo i acc log
    = (log ++ map (fun k => get_request key (code_commits_url owner repo k))
                (seq i (length pages + 1)),
       Done (acc ++ concat pages)).
Proof.
  induction pages as [|p pages IH]; intros fuel i acc log Hne Hsrv Hfuel.
  - destruct fuel as [|fuel]; [simpl in Hfuel; lia|].
    cbn [code_commits_pages]. rewrite bind_get.
    pose proof (Hsrv 0 (Nat.le_0_l _)) as H0. rewrite Nat.add_0_r in H0.
    unfold get_request in H0. rewrite H0. simpl.
    rewrite app_nil_r. reflexivity.
  - destruct fuel as [|fuel]; [simpl in Hfuel; lia|].
    inversion Hne as [|? ? Hp Hrest]; subst.
    cbn [code_commits_pages]. rewrite bind_get.
    pose proof (Hsrv 0 (Nat.le_0_l _)) as H0. rewrite Nat.add_0_r in H0.
    unfold get_request in H0. rewrite H0. cbn [nth].
    destruct p as [|c p]; [congruence|]. cbn [length Nat.eqb].
    rewrite (IH fuel (i + 1) (acc ++ c :: p) _ Hrest).
    + cbn [length]. replace (S (length pages) + 1) with (S (length pages + 1)) by lia.
      cbn [seq map concat]. rewrite <- !app_assoc. cbn [app].
      replace (i + 1) with (S i) by lia. reflexivity.
    + intros k Hk. specialize (Hsrv (S k)). cbn [nth length] in Hsrv.
      replace (i + 1 + k) with (i + S k) by lia. apply Hsrv. lia.
    + cbn [length] in Hfuel. lia.
Qed.

End OffsetPagination.

(** C4. When the first [N-1] pages of the commit listing are non-empty and
    page [N] is empty, the fetch loop of [code_commits] asks for the pages
    [0], [1], ..., [N-1] in this order, with exactly [N] requests, and
    returns the concatenation of the [N-1] non-empty pages. *)
Theorem code_commits_fetch_concat (key : string) (server : Request -> Response (list Commit))
    (owner repo : string) (pages : list (list Commit)) (fuel : nat) (log : list Request) :
  Forall (fun p => p <> []) pages ->
  (forall k, k <= length pages ->
     json (server (get_request key (code_commits_url owner repo k))) = nth k pages []) ->
  length pages < fuel ->
  code_commits_fetch key fuel server owner repo log
  = (log ++ map (fun i => get_request key (code_commits_url owner repo i))
              (seq 0 (length pages + 1)),
     Done (concat pages)).
Proof.
  intros Hne Hsrv Hfuel. unfold code_commits_fetch.
  apply (code_commits_pages_run key server owner repo pages fuel 0 [] log Hne); auto.
Qed.

Lemma code_commits_fetch_concat_witness :
  code_commits_fetch "k" 3 commit_pages_example "o" "r" []
  = ([get_request "k" (code_commits_url "o" "r" 0);
      get_request "k" (code_commits_url "o" "r" 1);
      get_request "k" (code_commits_url "o" "r" 2)],
     Done [mkCommit "2024-01-01T08:00:00Z"; mkCommit "2024-01-01T23:00:00Z";
           mkCommit "2024-01-02T09:30:00Z"]).
Proof.
  apply (code_commits_fetch_concat "k" commit_pages_example "o" "r"
           [[mkCommit "2024-01-01T08:00:00Z"; mkCommit "2024-01-01T23:00:00Z"];
            [mkCommit "2024-01-02T09:30:00Z"]] 3 []).
  - repeat constructor; discriminate.
  - intros k Hk. destruct k as [|[|[|k]]]; [vm_compute; reflexivity ..|simpl in Hk; lia].
  - simpl. lia.
Defined.

(** ** Link-header pagination in [open_issues] *)

Section LinkPagination.

Variables (key : string) (server : Request -> Response (list Issue)).

(** One turn of the loop on a response that carries a ["next"] relation
    with a URL: the body is appended and the loop goes on at that URL. *)
Lemma open_issues_pages_next (fuel : nat) (u u' : string) (next : gmap string string)
    (acc : list Issue) (log : list Request) :
  links (server (get_request key u)) !! "next" = Some next ->
  next !! "url" = Some u' ->
  open_issues_pages key (S fuel) server u acc log
  = open_issues_pages key fuel server u' (acc ++ json (server (get_request key u)))
      (log ++ [get_request key u]).
Proof.
  intros Hnext Hurl. cbn [open_issues_pages]. rewrite bind_get.
  fold (basic_auth key). fold (get_request key u). rewrite Hnext, Hurl. reflexivity.
Qed.

(** One turn on a response without a ["next"] relation: the loop ends. *)
Lemma open_issues_pages_last (fuel : nat) (u : string) (acc : list Issue)
    (log : list Request) :
  links (server (get_request key u)) !! "next" = None ->
  open_issues_pages key (S fuel) server u acc log
  = (log ++ [get_request key u], Done (acc ++ json (server (get_request key u)))).
Proof.
  intros Hnext. cbn [open_issues_pages]. rewrite bind_get.
  fold (basic_auth key). fold (get_request key u). rewrite Hnext. reflexivity.
Qed.

End LinkPagination.

(** C6. On a chain of three pages of which only the first two carry a
    ["next"] link relation, the fetch loop of [open_issues] issues exactly
    three requests: the initial URL, then the URL each previous response
    supplied; it returns the three bodies concatenated. *)
Theorem open_issues_fetch_three_pages (key : string)
    (server : Request -> Response (list Issue)) (owner repo : string)
    (u2 u3 : string) (next1 next2 : gmap string string) (fuel : nat) (log : list Request) :
  links (server (get_request key (open_issues_url owner repo))) !! "next" = Some next1 ->
  next1 !! "url" = Some u2 ->
  links (server (get_request key u2)) !! "next" = Some next2 ->
  next2 !! "url" = Some u3 ->
  links (server (get_request key u3)) !! "next" = None ->
  3 <= fuel ->
  open_issues_fetch key fuel server owner repo log
  = (log ++ [get_request key (open_issues_url owner repo); get_request key u2;
             get_request key u3],
     Done (json (server (get_request key (open_issues_url owner repo)))
           ++ json (server (get_request key u2))
           ++ json (server (get_request key u3)))).
Proof.
  intros H1 Hu2 H2 Hu3 H3 Hfuel.
  destruct fuel as [|[|[|fuel]]]; try lia.
  unfold open_issues_fetch.
  rewrite (open_issues_pages_next key server _ _ u2 next1 _ _ H1 Hu2).
  rewrite (open_issues_pages_next key server _ _ u3 next2 _ _ H2 Hu3).
  rewrite (open_issues_pages_last key server _ _ _ _ H3).
  rewrite <- !app_assoc. reflexivity.
Qed.

Lemma open_issues_fetch_three_pages_witness :
  open_issues_fetch "k" 3 issue_pages_example "o" "r" []
  = ([get_request "k" (open_issues_url "o" "r"); get_request "k" "https://api.example/p2";
      get_request "k" "https://api.example/p3"],
     Done [mkIssue "2024-01-01T08:00:00Z"; mkIssue "2024-01-01T23:00:00Z";
           mkIssue "2024-01-03T00:00:00Z"]).
Proof.
  apply (open_issues_fetch_three_pages "k" issue_pages_example "o" "r"
           "https://api.example/p2" "https://api.example/p3"
           {[ "url" := "https://api.example/p2" ]} {[ "url" := "https://api.example/p3" ]}
           3 []).
  - vm_compute. reflexivity.
  - vm_compute. reflexivity.
  - vm_compute. reflexivity.
  - vm_compute. reflexivity.
  - vm_compute. reflexivity.
  - lia.
Defined.

(** ** Cursor pagination in [bus_factor] *)

Section CursorPagination.

Variables (key : string) (server : Request -> Response History).
Variables (owner repo : string).

(** One turn of the loop on a page without edges: [commits[-1]] raises. *)
Lemma bus_factor_pages_no_edge (fuel : nat) (cur : string) (acc : list string)
    (log : list Request) :
  edges (json (server (graphql_request key (query_text repo owner cur)))) = [] ->
  bus_factor_pages key (S fuel) server owner repo cur acc log
  = (log ++ [graphql_request key (query_text repo owner cur)], Raised IndexError).
Proof.
  intros Hedges. cbn [bus_factor_pages]. rewrite bind_post.
  fold (basic_auth key). unfold graphql_url.
  fold (graphql_request key (query_text repo owner cur)).
  rewrite Hedges. reflexivity.
Qed.

(** One turn on a page with edges, the last of them [e]: the addresses are
    appended; the loop goes on with the cursor of [e] when the page says
    [hasNextPage], and ends otherwise. *)
Lemma bus_factor_pages_edges (fuel : nat) (cur : string) (acc : list string)
    (log : list Request) (e : Edge) :
  last (edges (json (server (graphql_request key (query_text repo owner cur))))) = Some e ->
  bus_factor_pages key (S fuel) server owner repo cur acc log
  = let page := json (server (graphql_request key (query_text repo owner cur))) in
    let acc' := acc ++ map email (edges page) in
    let log' := log ++ [graphql_request key (query_text repo owner cur)] in
    if hasNextPage page
    then bus_factor_pages key fuel server owner repo (after_argument (cursor e)) acc' log'
    else (log', Done acc').
Proof.
  intros Hlast. cbn [bus_factor_pages]. rewrite bind_post.
  fold (basic_auth key). unfold graphql_url.
  fold (graphql_request key (query_text repo owner cur)).
  rewrite Hlast. cbv zeta.
  destruct (hasNextPage _); reflexivity.
Qed.

(** The second turn either ends the loop or raises; it never asks again. *)
Lemma bus_factor_pages_final (fuel : nat) (cur : string) (acc : list string)
    (log : list Request) :
  hasNextPage (json (server (graphql_request key (query_text repo owner cur)))) = false ->
  fst (bus_factor_pages key (S fuel) server owner repo cur acc log)
  = log ++ [graphql_request key (query_text repo owner cur)]
  /\ snd (bus_factor_pages key (S fuel) server owner repo cur acc log) <> OutOfFuel
  /\ (edges (json (server (graphql_request key (query_text repo owner cur)))) <> [] ->
      snd (bus_factor_pages key (S fuel) server owner repo cur acc log)
      = Done (acc ++ map email
                (edges (json (server (graphql_request key (query_text repo owner cur))))))).
Proof.
  intros Hlastpage.
  destruct (last (edges (json (server (graphql_request key (query_text repo owner cur))))))
    as [e|] eqn:Hlast.
  - rewrite (bus_factor_pages_edges _ _ _ _ e Hlast). cbv zeta. rewrite Hlastpage.
    cbn [fst snd]. split; [reflexivity|split; [discriminate|reflexivity]].
  - apply last_None in Hlast.
    rewrite (bus_factor_pages_no_edge _ _ _ _ Hlast).
    cbn [fst snd]. split; [reflexivity|split; [discriminate|congruence]].
Qed.

End CursorPagination.

(** The log of [bus_factor] and whether it ran out of fuel are those of its
    fetch loop. *)
Lemma bus_factor_log (key : string) (fuel : nat) (server : Request -> Response History)
    (owner repo : string) (threshold : Q) (log : list Request) :
  fst (bus_factor key fuel server owner repo threshold log)
  = fst (bus_factor_fetch key fuel server owner repo log)
  /\ (snd (bus_factor key fuel server owner repo threshold log) = OutOfFuel <->
      snd (bus_factor_fetch key fuel server owner repo log) = OutOfFuel).
Proof.
  unfold bus_factor, mbind, Net_bind.
  destruct (bus_factor_fetch key fuel server owner repo log) as [log' [emails|e|]];
    cbn [fst snd]; [|split; [reflexivity|split; discriminate] | tauto].
  unfold lift, bus_factor_table. destruct emails; cbn [fst snd]; split; try reflexivity;
    split; discriminate.
Qed.

(** C5. On two GraphQL pages, the first with [hasNextPage = true] and edges
    that carry cursors, the second with [hasNextPage = false], [bus_factor]
    issues exactly two requests.  The first query has an empty third slot;
    the query of the second is the same document with [, after: "c"] in that
    slot, [c] being the cursor of the last edge of the first response.  The
    loop stops there: it does not run out of fuel, and it has fetched the
    addresses of both pages when the second page has edges. *)
Theorem bus_factor_two_pages (key : string) (server : Request -> Response History)
    (owner repo : string) (threshold : Q) (e : Edge) (fuel : nat) (log : list Request) :
  let first := graphql_request key (query_text repo owner "") in
  let second :=
    graphql_request key
      (query_text repo owner (", after: " +:+ dquote +:+ cursor e +:+ dquote)) in
  hasNextPage (json (server first)) = true ->
  last (edges (json (server first))) = Some e ->
  hasNextPage (json (server second)) = false ->
  2 <= fuel ->
  fst (bus_factor key fuel server owner repo threshold log) = log ++ [first; second]
  /\ payload second
     = Some (query_head repo owner +:+ (", after: " +:+ dquote +:+ cursor e +:+ dquote)
             +:+ query_tail)
  /\ snd (bus_factor key fuel server owner repo threshold log) <> OutOfFuel
  /\ (edges (json (server second)) <> [] ->
      snd (bus_factor_fetch key fuel server owner repo log)
      = Done (map email (edges (json (server first)))
              ++ map email (edges (json (server second))))).
Proof.
  intros first second Hmore Hlast Hstop Hfuel.
  destruct fuel as [|[|fuel]]; try lia.
  destruct (bus_factor_log key (S (S fuel)) server owner repo threshold log) as [Hlog Hout].
  rewrite Hlog. clear Hlog.
  assert (Hrun : bus_factor_fetch key (S (S fuel)) server owner repo log
    = bus_factor_pages key (S fuel) server owner repo (after_argument (cursor e))
        (map email (edges (json (server first)))) (log ++ [first])).
  { unfold bus_factor_fetch.
    rewrite (bus_factor_pages_edges key server owner repo _ _ _ _ e Hlast).
    cbv zeta. fold first. rewrite Hmore. reflexivity. }
  destruct (bus_factor_pages_final key server owner repo fuel (after_argument (cursor e))
              (map email (edges (json (server first)))) (log ++ [first]) Hstop)
    as (Hl & Hnf & Hdone).
  rewrite Hout, Hrun. split; [|split; [|split]].
  - rewrite Hl, <- app_assoc. reflexivity.
  - reflexivity.
  - exact Hnf.
  - exact Hdone.
Qed.

Lemma bus_factor_two_pages_witness :
  fst (bus_factor "k" 2 history_pages_example "o" "r" 50 [])
  = [graphql_request "k" (query_text "r" "o" "");
     graphql_request "k" (query_text "r" "o" (", after: " +:+ dquote +:+ "c3" +:+ dquote))]
  /\ snd (bus_factor "k" 2 history_pages_example "o" "r" 50 []) <> OutOfFuel.
Proof.
  destruct (bus_factor_two_pages "k" history_pages_example "o" "r" 50 (mkEdge "c3" "a") 2 [])
    as (Hlog & _ & Hstop & _).
  - vm_compute. reflexivity.
  - vm_compute. reflexivity.
  - vm_compute. reflexivity.
  - lia.
  - split; [exact Hlog | exact Hstop].
Defined.

(** ** [bus_factor] on an empty history *)

(** C3 (as the code has it).  When the first page of the commit history
    carries no edge, [bus_factor] stops after its first request with the
    [IndexError] of [commits[-1]]: no share is computed, so nothing is
    divided by zero, and no explicit empty-input error is raised. *)
Theorem bus_factor_empty_history (key : string) (server : Request -> Response History)
    (owner repo : string) (threshold : Q) (fuel : nat) (log : list Request) :
  edges (json (server (graphql_request key (query_text repo owner "")))) = [] ->
  0 < fuel ->
  bus_factor key fuel server owner repo threshold log
  = (log ++ [graphql_request key (query_text repo owner "")], Raised IndexError).
Proof.
  intros Hedges Hfuel. destruct fuel as [|fuel]; [lia|].
  unfold bus_factor. apply bind_raised. unfold bus_factor_fetch.
  apply bus_factor_pages_no_edge. exact Hedges.
Qed.

Lemma bus_factor_empty_history_witness :
  bus_factor "k" 1 empty_history_example "o" "r" 50 []
  = ([graphql_request "k" (query_text "r" "o" "")], Raised IndexError).
Proof.
  apply (bus_factor_empty_history "k" empty_history_example "o" "r" 50 1 []).
  - vm_compute. reflexivity.
  - lia.
Defined.

(** C3 fails as stated: on an empty history the outcome is an [IndexError],
    a lookup fault, and not an explicit insufficient-data error. *)
Lemma bus_factor_empty_history_not_explicit :
  snd (bus_factor "k" 5 empty_history_example "o" "r" 50 []) = Raised IndexError
  /\ snd (bus_factor "k" 5 empty_history_example "o" "r" 50 []) <> Raised InsufficientDataError.
Proof. split; [vm_compute; reflexivity | vm_compute; discriminate]. Qed.

(** ** The shares and the threshold of [bus_factor] *)

(** C1 (what the code returns).  For the five commits of [a], [a], [a], [b],
    [c] and [threshold = 50], [bus_factor] returns [worst = 1] and
    [best = 1]: the shares are 60, 20 and 20 per cent, the threshold has
    become the fraction 1/2, and the smallest share already reaches it.
    Against the threshold in per cent the same loops count [best = 3]. *)
Theorem bus_factor_example :
  shares ["a"; "a"; "a"; "b"; "c"] = [(300 # 5)%Q; (100 # 5)%Q; (100 # 5)%Q]
  /\ snd (bus_factor "k" 2 history_pages_example "o" "r" 50 [])
     = Done (mkBusFactor 1 1)
  /\ bus_factor_table 50 ["a"; "a"; "a"; "b"; "c"] = Done (mkBusFactor 1 3).
Proof. split; [|split]; vm_compute; reflexivity. Qed.

(** ** The columns of [lines_of_code_changed] *)

Lemma wrap64_small (z : Z) : (- 2 ^ 63 <= z < 2 ^ 63)%Z -> wrap64 z = z.
Proof. intros H. unfold wrap64. rewrite Z.mod_small; lia. Qed.

Lemma wrap64_range (z : Z) : (- 2 ^ 63 <= wrap64 z < 2 ^ 63)%Z.
Proof.
  unfold wrap64. pose proof (Z.mod_pos_bound (z + 2 ^ 63) (2 ^ 64)). lia.
Qed.

Lemma wrap64_idem (z : Z) : wrap64 (wrap64 z) = wrap64 z.
Proof. apply wrap64_small, wrap64_range. Qed.

Lemma wrap64_add_l (a b : Z) : wrap64 (wrap64 a + b) = wrap64 (a + b).
Proof.
  unfold wrap64. f_equal.
  replace ((a + 2 ^ 63) mod 2 ^ 64 - 2 ^ 63 + b + 2 ^ 63)%Z
    with ((a + 2 ^ 63) mod 2 ^ 64 + b)%Z by lia.
  rewrite Zplus_mod_idemp_l. f_equal. lia.
Qed.

(** Subtracting the negated column adds the original one. *)
Lemma wrap64_sub_neg (a d : Z) : wrap64 (a - wrap64 (d * -1)) = wrap64 (a + d).
Proof.
  unfold wrap64. f_equal.
  replace (a - ((d * -1 + 2 ^ 63) mod 2 ^ 64 - 2 ^ 63) + 2 ^ 63)%Z
    with (a + 2 ^ 63 + 2 ^ 63 - (d * -1 + 2 ^ 63) mod 2 ^ 64)%Z by lia.
  rewrite Zminus_mod_idemp_r.
  replace (a + 2 ^ 63 + 2 ^ 63 - (d * -1 + 2 ^ 63))%Z with (a + d + 2 ^ 63)%Z by lia.
  reflexivity.
Qed.

Section LinesFrame.

Lemma lines_frame_rows (stats : list WeekStat) :
  lines_frame stats
  = match stats with
    | [] => []
    | w :: rest =>
        let d := wrap64 (week_deletions w * -1) in
        let dl := wrap64 (week_additions w - d) in
        mkLinesRow (week w * 1000000000) (week_additions w) d dl dl :: rows_from dl rest
    end.
Proof.
  destruct stats as [|w rest]; [reflexivity|].
  unfold lines_frame. cbn [map zip_with cumsum64]. cbv zeta. f_equal.
  generalize (wrap64 (week_additions w - wrap64 (week_deletions w * -1))) as acc.
  induction rest as [|w' rest IH]; intros acc; [reflexivity|].
  cbn [map zip_with cumsum64_from rows_from]. cbv zeta. f_equal. apply IH.
Qed.

Lemma rows_from_length (stats : list WeekStat) :
  forall acc, length (rows_from acc stats) = length stats.
Proof. induction stats as [|w rest IH]; intros acc; cbn; [reflexivity|]. f_equal. apply IH. Qed.

Lemma rows_from_lookup (stats : list WeekStat) :
  forall (acc : Z) (i : nat) (w : WeekStat),
    stats !! i = Some w ->
    exists r, rows_from acc stats !! i = Some r
      /\ additions r = week_additions w
      /\ deletions r = wrap64 (week_deletions w * -1)
      /\ delta r = wrap64 (additions r - deletions r)
      /\ total_lines r
         = wrap64 (acc + sum_Z (map delta (take (S i) (rows_from acc stats)))).
Proof.
  induction stats as [|w0 rest IH]; intros acc i w Hw; [discriminate|].
  destruct i as [|i].
  - injection Hw as <-. eexists. split; [reflexivity|].
    cbn [additions deletions delta total_lines]. repeat split.
    cbn [rows_from firstn]. rewrite take_0. cbn [map delta sum_Z fold_right]. f_equal. lia.
  - cbn [lookup list_lookup] in Hw.
    destruct (IH (wrap64 (acc + wrap64 (week_additions w0 - wrap64 (week_deletions w0 * -1))))
                i w Hw) as (r & Hr & Ha & Hd & Hdl & Ht).
    exists r. split; [exact Hr|]. repeat split; try assumption.
    rewrite Ht. cbn [rows_from]. cbv zeta.
    cbn [firstn map delta sum_Z fold_right]. fold (sum_Z (map delta (take (S i)
      (rows_from (wrap64 (acc + wrap64 (week_additions w0 - wrap64 (week_deletions w0 * -1)))) rest)))).
    rewrite wrap64_add_l. f_equal. lia.
Qed.

Lemma lines_frame_lookup (stats : list WeekStat) (i : nat) (w : WeekStat) :
  stats !! i = Some w ->
  exists r, lines_frame stats !! i = Some r
    /\ additions r = week_additions w
    /\ deletions r = wrap64 (week_deletions w * -1)
    /\ delta r = wrap64 (additions r - deletions r)
    /\ total_lines r = wrap64 (sum_Z (map delta (take (S i) (lines_frame stats)))).
Proof.
  intros Hw. rewrite lines_frame_rows.
  destruct stats as [|w0 rest]; [discriminate|]. cbv zeta.
  destruct i as [|i].
  - injection Hw as <-. eexists. split; [reflexivity|].
    cbn [additions deletions delta total_lines]. repeat split.
    cbn [firstn]. rewrite take_0. cbn [map delta sum_Z fold_right].
    rewrite Z.add_0_r, wrap64_idem. reflexivity.
  - cbn [lookup list_lookup] in Hw.
    destruct (rows_from_lookup rest
                (wrap64 (week_additions w0 - wrap64 (week_deletions w0 * -1))) i w Hw)
      as (r & Hr & Ha & Hd & Hdl & Ht).
    exists r. split; [exact Hr|]. repeat split; assumption.
Qed.

End LinesFrame.

(** C2 (as the code has it).  [lines_of_code_changed] issues one request
    and returns one row per weekly triple, in the order received.  In each
    row [deletions] is the input value negated, [delta] is [additions]
    minus that negated column, which is [additions] plus the input
    deletions, and [total_lines] is the running sum of [delta] up to the
    row, all in 64-bit columns.  For the input [(10,4), (5,1)] the deltas
    are [14, 6] and the totals [14, 20]; the deltas [6, 4] and totals
    [6, 10] belong to the input [(10,-4), (5,-1)]. *)
Theorem lines_of_code_changed_rows (key : string)
    (server : Request -> Response (list WeekStat)) (owner repo : string)
    (log : list Request) :
  let stats := json (server (get_request key (code_frequency_url owner repo))) in
  lines_of_code_changed key server owner repo log
  = (log ++ [get_request key (code_frequency_url owner repo)], Done (lines_frame stats))
  /\ length (lines_frame stats) = length stats
  /\ (forall (i : nat) (w : WeekStat),
        stats !! i = Some w ->
        exists r, lines_frame stats !! i = Some r
          /\ additions r = week_additions w
          /\ deletions r = wrap64 (- week_deletions w)
          /\ delta r = wrap64 (additions r - deletions r)
          /\ delta r = wrap64 (week_additions w + week_deletions w)
          /\ total_lines r = wrap64 (sum_Z (map delta (take (S i) (lines_frame stats)))))
  /\ map delta (lines_frame [mkWeekStat 0 10 4; mkWeekStat 604800 5 1]) = [14; 6]%Z
  /\ map total_lines (lines_frame [mkWeekStat 0 10 4; mkWeekStat 604800 5 1]) = [14; 20]%Z
  /\ map delta (lines_frame [mkWeekStat 0 10 (-4); mkWeekStat 604800 5 (-1)]) = [6; 4]%Z
  /\ map total_lines (lines_frame [mkWeekStat 0 10 (-4); mkWeekStat 604800 5 (-1)])
     = [6; 10]%Z.
Proof.
  intros stats. split; [reflexivity|]. split.
  - rewrite lines_frame_rows. destruct stats as [|w rest]; [reflexivity|].
    cbv zeta. cbn [length]. f_equal. apply rows_from_length.
  - split; [|repeat split; vm_compute; reflexivity].
    intros i w Hw.
    destruct (lines_frame_lookup stats i w Hw) as (r & Hr & Ha & Hd & Hdl & Ht).
    exists r. split; [exact Hr|]. split; [exact Ha|]. split.
    + rewrite Hd. f_equal. lia.
    + split; [exact Hdl|]. split; [|exact Ht].
      rewrite Hdl, Hd, Ha. apply wrap64_sub_neg.
Qed.

(** C2 fails as stated: for the input [(10,4), (5,1)] the returned deltas
    are [14, 6] and the totals [14, 20], not [6, 4] and [6, 10]. *)
Lemma lines_of_code_changed_example_differs :
  snd (lines_of_code_changed "k"
         (serve [(code_frequency_url "o" "r",
                  ([mkWeekStat 0 10 4; mkWeekStat 604800 5 1], []))]) "o" "r" [])
  = Done [mkLinesRow 0 10 (-4) 14 14; mkLinesRow 604800000000000 5 (-1) 6 20]
  /\ map delta [mkLinesRow 0 10 (-4) 14 14; mkLinesRow 604800000000000 5 (-1) 6 20]
     <> [6; 4]%Z
  /\ map total_lines [mkLinesRow 0 10 (-4) 14 14; mkLinesRow 604800000000000 5 (-1) 6 20]
     <> [6; 10]%Z.
Proof. split; [vm_compute; reflexivity|split; vm_compute; discriminate]. Qed.

(** ** Grouping by day *)

Lemma normalize_midnight (t : Z) : normalize t = (t / day_ns * day_ns)%Z.
Proof.
  unfold normalize. pose proof (Z.div_mod t day_ns) as H.
  assert (day_ns <> 0%Z) as Hd by (unfold day_ns; lia). specialize (H Hd). lia.
Qed.

(** [tally] keeps the keys strictly increasing, so a key has one row. *)
Lemma tally_sorted (k : Z) (rows : list (Z * nat)) :
  Sorted Z.lt (map fst rows) -> Sorted Z.lt (map fst (tally Z.compare k rows)).
Proof.
  induction rows as [|[k' c] rest IH]; cbn [tally map fst]; intros Hs.
  - repeat constructor.
  - destruct (Z.compare_spec k k') as [Heq|Hlt|Hgt]; cbn [map fst].
    + exact Hs.
    + constructor; [exact Hs|constructor; exact Hlt].
    + apply Sorted_inv in Hs. destruct Hs as [Hrest Hhd].
      constructor; [apply IH; exact Hrest|].
      destruct rest as [|[k'' c''] rest']; cbn [tally map fst].
      * constructor. lia.
      * apply HdRel_inv in Hhd. cbn [map fst] in Hhd.
        destruct (Z.compare_spec k k''); cbn [map fst]; constructor; lia.
Qed.

Lemma tally_count (k k' : Z) (rows : list (Z * nat)) :
  row_count k' (tally Z.compare k rows)
  = (if (k =? k')%Z then 1 else 0) + row_count k' rows.
Proof.
  induction rows as [|[k0 c] rest IH]; cbn [tally row_count].
  - lia.
  - destruct (Z.compare_spec k k0) as [Heq|Hlt|Hgt]; cbn [row_count].
    + subst k0. destruct (k =? k')%Z; lia.
    + lia.
    + rewrite IH. lia.
Qed.

Lemma tally_positive (k : Z) (rows : list (Z * nat)) :
  Forall (fun row => 0 < snd row) rows ->
  Forall (fun row => 0 < snd row) (tally Z.compare k rows).
Proof.
  induction rows as [|[k0 c] rest IH]; cbn [tally]; intros Hpos.
  - repeat constructor.
  - apply Forall_cons_1 in Hpos. destruct Hpos as [Hc Hrest]. cbn [snd] in Hc.
    destruct (k ?= k0)%Z.
    + apply List.Forall_cons; [cbn; lia|exact Hrest].
    + apply List.Forall_cons; [cbn; lia|apply List.Forall_cons; assumption].
    + apply List.Forall_cons; [exact Hc|apply IH, Hrest].
Qed.

(** The three facts along the fold of [groupby_size]. *)
Lemma groupby_fold (keys : list Z) :
  forall rows : list (Z * nat),
    Sorted Z.lt (map fst rows) ->
    Forall (fun row => 0 < snd row) rows ->
    let rows' := fold_left (fun rows k => tally Z.compare k rows) keys rows in
    Sorted Z.lt (map fst rows')
    /\ Forall (fun row => 0 < snd row) rows'
    /\ forall k, row_count k rows' = occurrences k keys + row_count k rows.
Proof.
  induction keys as [|k0 keys IH]; intros rows Hs Hpos; cbn [fold_left occurrences].
  - repeat split; assumption.
  - destruct (IH (tally Z.compare k0 rows) (tally_sorted _ _ Hs) (tally_positive _ _ Hpos))
      as (Hs' & Hpos' & Hcount).
    repeat split; [exact Hs'|exact Hpos'|].
    intros k. rewrite Hcount, tally_count. lia.
Qed.

(** In a table with increasing keys the count of a key is that of its row. *)
Lemma row_count_absent (k : Z) (rows : list (Z * nat)) :
  Forall (fun k' => k' <> k) (map fst rows) -> row_count k rows = 0.
Proof.
  induction rows as [|[k0 c] rest IH]; cbn [map fst row_count]; intros Hne; [reflexivity|].
  apply Forall_cons_1 in Hne. destruct Hne as [Hk0 Hrest].
  destruct (Z.eqb_spec k0 k); [contradiction|]. rewrite (IH Hrest). reflexivity.
Qed.

Lemma row_count_row (k : Z) (c : nat) (rows : list (Z * nat)) :
  Sorted Z.lt (map fst rows) -> (k, c) ∈ rows -> row_count k rows = c.
Proof.
  induction rows as [|[k0 c0] rest IH]; cbn [map fst row_count]; intros Hs Hin.
  - apply elem_of_nil in Hin. contradiction.
  - apply Sorted_StronglySorted in Hs; [|intros x y z; lia].
    apply StronglySorted_inv in Hs. destruct Hs as [Hrest Hall].
    apply elem_of_cons in Hin. destruct Hin as [Heq|Hin].
    + injection Heq as <- <-. rewrite Z.eqb_refl, row_count_absent; [lia|].
      eapply Forall_impl; [exact Hall|]. cbn. intros; lia.
    + assert (k0 < k)%Z as Hlt.
      { rewrite List.Forall_forall in Hall. apply Hall, in_map_iff.
        exists (k, c). split; [reflexivity|apply list_elem_of_In, Hin]. }
      destruct (Z.eqb_spec k0 k); [lia|].
      apply IH; [apply StronglySorted_Sorted, Hrest|exact Hin].
Qed.

Lemma row_count_present (k : Z) (rows : list (Z * nat)) :
  0 < row_count k rows -> exists c, (k, c) ∈ rows.
Proof.
  induction rows as [|[k0 c0] rest IH]; cbn [row_count]; intros Hpos; [lia|].
  destruct (Z.eqb_spec k0 k) as [->|Hne].
  - exists c0. apply elem_of_cons. left. reflexivity.
  - destruct (IH Hpos) as [c Hc]. exists c. apply elem_of_cons. right. exact Hc.
Qed.

Lemma occurrences_elem (k : Z) (keys : list Z) : k ∈ keys -> 0 < occurrences k keys.
Proof.
  induction keys as [|k0 keys IH]; intros Hin.
  - apply elem_of_nil in Hin. contradiction.
  - cbn [occurrences]. apply elem_of_cons in Hin. destruct Hin as [<-|Hin].
    + rewrite Z.eqb_refl. lia.
    + specialize (IH Hin). lia.
Qed.

(** [groupby(...).size()] over any column of days: the rows have strictly
    increasing days, each row counts the cells of its day, and every day of
    the column has a row. *)
Lemma groupby_size_rows (keys : list Z) :
  Sorted Z.lt (map fst (groupby_size Z.compare keys))
  /\ (forall k c, (k, c) ∈ groupby_size Z.compare keys -> 0 < c /\ c = occurrences k keys)
  /\ (forall k, k ∈ keys -> exists c, (k, c) ∈ groupby_size Z.compare keys).
Proof.
  destruct (groupby_fold keys [] (Sorted_nil _) (List.Forall_nil _)) as (Hs & Hpos & Hcount).
  cbv zeta in Hs, Hpos, Hcount. fold (groupby_size Z.compare keys) in Hs, Hpos, Hcount.
  split; [exact Hs|]. split.
  - intros k c Hin. split.
    + rewrite List.Forall_forall in Hpos.
      apply (Hpos (k, c)), list_elem_of_In, Hin.
    + rewrite <- (row_count_row k c _ Hs Hin), Hcount. cbn [row_count]. lia.
  - intros k Hin. apply row_count_present. rewrite Hcount.
    pose proof (occurrences_elem k keys Hin). lia.
Qed.

Section PerDay.

Variable to_datetime : string -> option Z.


(** Any column of cells that parse: one row per day present, in increasing
    order of day, each with the number of cells of that day. *)
Lemma count_per_day_rows (cells : list string) (ts : list Z) :
  to_datetime_column to_datetime cells = Done ts ->
  count_per_day to_datetime cells = Done (groupby_size Z.compare (map normalize ts))
  /\ Sorted Z.lt (map fst (groupby_size Z.compare (map normalize ts)))
  /\ (forall d c, (d, c) ∈ groupby_size Z.compare (map normalize ts) ->
        0 < c /\ c = occurrences d (map normalize ts))
  /\ (forall t, t ∈ ts ->
        exists c, (normalize t, c) ∈ groupby_size Z.compare (map normalize ts)).
Proof.
  intros Hparse. unfold count_per_day. rewrite Hparse.
  destruct (groupby_size_rows (map normalize ts)) as (Hs & Hrows & Hdays).
  split; [reflexivity|]. split; [exact Hs|]. split; [exact Hrows|].
  intros t Ht. apply Hdays, list_elem_of_In, in_map, list_elem_of_In, Ht.
Qed.

End PerDay.



(** ** The single-shot fetchers *)

(** C9. [closed_issues] and [contributors] each issue exactly one GET and
    build their table from the body of that one response: the per-day
    counts of the column [created_at], and the columns [login] and
    [contributions].  Nothing else of the platform is read, the link
    relations of the response included, so what the platform holds beyond
    its first page does not reach the table. *)
Theorem single_shot_fetchers (key : string) (to_datetime : string -> option Z)
    (owner repo : string) (log : list Request) :
  (forall server : Request -> Response (list Issue),
      closed_issues key to_datetime server owner repo log
      = (log ++ [get_request key (closed_issues_url owner repo)],
         count_per_day to_datetime
           (map created_at (json (server (get_request key (closed_issues_url owner repo)))))))
  /\ (forall server : Request -> Response (list Contributor),
        contributors key server owner repo log
        = (log ++ [get_request key (contributors_url owner repo)],
           Done (map (fun c => (login c, contributions c))
                   (json (server (get_request key (contributors_url owner repo)))))))
  /\ (forall server server' : Request -> Response (list Issue),
        json (server (get_request key (closed_issues_url owner repo)))
        = json (server' (get_request key (closed_issues_url owner repo))) ->
        closed_issues key to_datetime server owner repo log
        = closed_issues key to_datetime server' owner repo log)
  /\ (forall server server' : Request -> Response (list Contributor),
        json (server (get_request key (contributors_url owner repo)))
        = json (server' (get_request key (contributors_url owner repo))) ->
        contributors key server owner repo log
        = contributors key server' owner repo log).
Proof.
  assert (Hclosed : forall server : Request -> Response (list Issue),
      closed_issues key to_datetime server owner repo log
      = (log ++ [get_request key (closed_issues_url owner repo)],
         count_per_day to_datetime
           (map created_at (json (server (get_request key (closed_issues_url owner repo))))))).
  { intros server. unfold closed_issues. rewrite bind_get. reflexivity. }
  assert (Hcontrib : forall server : Request -> Response (list Contributor),
      contributors key server owner repo log
      = (log ++ [get_request key (contributors_url owner repo)],
         Done (map (fun c => (login c, contributions c))
                 (json (server (get_request key (contributors_url owner repo))))))).
  { intros server. unfold contributors. rewrite bind_get. reflexivity. }
  split; [exact Hclosed|]. split; [exact Hcontrib|]. split.
  - intros server server' Hbody. rewrite !Hclosed, Hbody. reflexivity.
  - intros server server' Hbody. rewrite !Hcontrib, Hbody. reflexivity.
Qed.

(** ** [contributors_gender] *)

Section Gender.

Variable name_gender : list (pystr * pystr).

(** [split()] returns no word exactly on blank text. *)
Lemma py_split_from_nil (s : pystr) :
  forall cur, py_split_from cur s = [] <-> cur = [] /\ blank s = true.
Proof.
  unfold blank. induction s as [|c s IH]; intros cur; cbn [py_split_from forallb].
  - destruct cur; split; try tauto; try discriminate. intros [H _]. discriminate.
  - destruct (py_isspace c); cbn [andb].
    + destruct cur.
      * rewrite IH. tauto.
      * split; [discriminate|intros [H _]; discriminate].
    + rewrite IH. split; [intros [H _]|intros [_ H]; discriminate].
      destruct cur; discriminate.
Qed.

Lemma py_split_nil (s : pystr) : py_split s = [] <-> blank s = true.
Proof. unfold py_split. rewrite py_split_from_nil. tauto. Qed.

Lemma py_split_word (s : pystr) :
  blank s = false -> exists word, head (py_split s) = Some word.
Proof.
  intros Hs. destruct (py_split s) as [|word ws] eqn:Hsplit.
  - apply py_split_nil in Hsplit. congruence.
  - exists word. reflexivity.
Qed.

(** The loop over contributors whose set names all hold a word: it ends
    normally with the first words of the set names, in order. *)
Lemma first_names_words (cs : list NamedUser) :
  forall names : list pystr,
    Forall (fun c => forall n, name c = Some n -> py_split n <> []) cs ->
    first_names cs names = Done (names ++ omap first_word cs).
Proof.
  induction cs as [|c cs IH]; intros names Hwords.
  - cbn. rewrite app_nil_r. reflexivity.
  - inversion Hwords as [|? ? Hc Hcs]; subst.
    cbn [first_names omap list_omap]. unfold first_word at 1.
    destruct (name c) as [n|] eqn:Hn.
    + specialize (Hc n eq_refl). destruct (py_split n) as [|word ws]; [congruence|].
      cbn [head]. rewrite (IH _ Hcs), <- app_assoc. reflexivity.
    + apply (IH _ Hcs).
Qed.

(** Contributors without a name leave the loop as it was. *)
Lemma first_names_unnamed (cs : list NamedUser) :
  forall names : list pystr,
    first_names (filter (fun c => is_Some (name c)) cs) names = first_names cs names.
Proof.
  induction cs as [|c cs IH]; intros names; [reflexivity|].
  destruct (name c) as [n|] eqn:Hn.
  - rewrite filter_cons_True by (rewrite Hn; eauto).
    cbn [first_names]. rewrite Hn. destruct (py_split n); [reflexivity|apply IH].
  - rewrite filter_cons_False by (rewrite Hn; intros [? ?]; discriminate).
    cbn [first_names]. rewrite Hn. apply IH.
Qed.

(** One blank name, wherever it stands, ends the loop with the
    [IndexError] of [split()[0]]. *)
Lemma first_names_blank (cs : list NamedUser) :
  forall names, Exists blank_name cs -> first_names cs names = Raised IndexError.
Proof.
  induction cs as [|c cs IH]; intros names Hex; [inversion Hex|].
  cbn [first_names]. destruct (name c) as [n|] eqn:Hn.
  - destruct (py_split n) as [|word ws] eqn:Hsplit; [reflexivity|].
    apply IH. inversion Hex as [? ? (n' & Hn' & Hblank)|]; subst; [|assumption].
    rewrite Hn in Hn'. injection Hn' as <-. apply py_split_nil in Hblank. congruence.
  - apply IH. inversion Hex as [? ? (n' & Hn' & _)|]; subst; [congruence|assumption].
Qed.

(** A loop that ends normally has collected the first words, in order. *)
Lemma first_names_done (cs : list NamedUser) :
  forall names out,
    first_names cs names = Done out -> out = names ++ omap first_word cs.
Proof.
  induction cs as [|c cs IH]; intros names out Hrun; cbn [first_names] in Hrun.
  - injection Hrun as <-. cbn. rewrite app_nil_r. reflexivity.
  - cbn [omap list_omap]. unfold first_word at 1. destruct (name c) as [n|].
    + destruct (py_split n) as [|word ws]; [discriminate|].
      cbn [head]. rewrite (IH _ _ Hrun), <- app_assoc. reflexivity.
    + apply (IH _ _ Hrun).
Qed.

Lemma merge_inner_elem (names : list pystr) (row : pystr * pystr) :
  row ∈ merge_inner names name_gender <-> fst row ∈ names /\ row ∈ name_gender.
Proof.
  unfold merge_inner. rewrite list_elem_of_In, in_flat_map. split.
  - intros (n & Hn & Hrow). apply list_elem_of_In, list_elem_of_filter in Hrow.
    destruct Hrow as [Heq Hrow]. subst n. split; [apply list_elem_of_In, Hn|exact Hrow].
  - intros [Hn Hrow]. exists (fst row). split; [apply list_elem_of_In, Hn|].
    apply list_elem_of_In, list_elem_of_filter. split; [reflexivity|exact Hrow].
Qed.

End Gender.

(** C10 (as the code has it).  On a list of contributors in which no name
    that is set is blank (empty, or made of white space only),
    [contributors_gender] ends normally with the inner join of the
    reference table and the first words of the set names, in the order of
    the contributors.  A contributor whose name is [None] is skipped:
    removing these contributors changes nothing, and every row returned
    carries the first word of the name of a contributor that has one.  Every
    contributor with a name has a first word, and each row of the reference
    table with that word as its name is in the table returned. *)
Theorem contributors_gender_skips_unnamed (get_contributors : string -> list NamedUser)
    (name_gender : list (pystr * pystr)) (owner repo : string) :
  let cs := get_contributors (owner +:+ "/" +:+ repo) in
  Forall (fun c => forall n, name c = Some n -> blank n = false) cs ->
  contributors_gender get_contributors name_gender owner repo
  = Done (merge_inner (omap first_word cs) name_gender)
  /\ contributors_gender (fun _ => filter (fun c => is_Some (name c)) cs) name_gender owner repo
     = contributors_gender get_contributors name_gender owner repo
  /\ (forall c n, c ∈ cs -> name c = Some n ->
        exists word,
          head (py_split n) = Some word
          /\ forall row, row ∈ name_gender -> fst row = word ->
                         row ∈ merge_inner (omap first_word cs) name_gender)
  /\ (forall row, row ∈ merge_inner (omap first_word cs) name_gender ->
        row ∈ name_gender
        /\ exists c n, c ∈ cs /\ name c = Some n /\ head (py_split n) = Some (fst row)).
Proof.
  intros cs Hwords.
  assert (Forall (fun c => forall n, name c = Some n -> py_split n <> []) cs) as Hsplit.
  { eapply Forall_impl; [exact Hwords|]. cbn. intros c Hc n Hn Hnil.
    apply py_split_nil in Hnil. rewrite (Hc n Hn) in Hnil. discriminate. }
  split; [|split; [|split]].
  - unfold contributors_gender. fold cs. rewrite (first_names_words cs [] Hsplit).
    reflexivity.
  - unfold contributors_gender. fold cs. rewrite first_names_unnamed. reflexivity.
  - intros c n Hc Hn. rewrite List.Forall_forall in Hwords.
    destruct (py_split_word n (Hwords c (proj1 (list_elem_of_In _ _) Hc) n Hn))
      as [word Hword].
    exists word. split; [exact Hword|]. intros row Hrow Hfst.
    apply merge_inner_elem. split; [|exact Hrow].
    apply list_elem_of_omap. exists c. split; [exact Hc|].
    unfold first_word. rewrite Hn, Hfst. exact Hword.
  - intros row Hrow. apply merge_inner_elem in Hrow. destruct Hrow as [Hname Hrow].
    split; [exact Hrow|]. apply list_elem_of_omap in Hname.
    destruct Hname as (c & Hc & Hword). exists c. unfold first_word in Hword.
    destruct (name c) as [n|] eqn:Hn; [|discriminate]. exists n. auto.
Qed.

Lemma contributors_gender_skips_unnamed_witness :
  contributors_gender
    (fun _ => [mkNamedUser (Some (text "Jane Doe")); mkNamedUser None;
               mkNamedUser (Some (text "Xyzzy Unknown"));
               mkNamedUser (Some [197; 115; 97; 8195; 66; 101; 114; 103]%N)])
    [(text "Jane", text "female"); (text "John", text "male");
     ([197; 115; 97]%N, text "female")] "o" "r"
  = Done [(text "Jane", text "female"); ([197; 115; 97]%N, text "female")].
Proof.
  destruct (contributors_gender_skips_unnamed
              (fun _ => [mkNamedUser (Some (text "Jane Doe")); mkNamedUser None;
                         mkNamedUser (Some (text "Xyzzy Unknown"));
                         mkNamedUser (Some [197; 115; 97; 8195; 66; 101; 114; 103]%N)])
              [(text "Jane", text "female"); (text "John", text "male");
               ([197; 115; 97]%N, text "female")] "o" "r") as (Hrows & _).
  - cbv zeta.
    do 4 (apply List.Forall_cons; [intros n Hn; cbn in Hn; simplify_eq;
          vm_compute; reflexivity|]).
    apply List.Forall_nil.
  - rewrite Hrows. vm_compute. reflexivity.
Defined.

(** C10 fails as stated: a contributor whose name is set but blank, by a
    space or by the ideographic space U+3000, has no first word, and the
    call ends with an [IndexError]; the contributor with a proper name then
    reaches no join either. *)
Lemma contributors_gender_blank_name :
  contributors_gender
    (fun _ => [mkNamedUser (Some (text "Jane Doe")); mkNamedUser (Some (text " "))])
    [(text "Jane", text "female")] "o" "r"
  = Raised IndexError
  /\ contributors_gender
       (fun _ => [mkNamedUser (Some [12288]%N); mkNamedUser (Some (text "Jane Doe"))])
       [(text "Jane", text "female")] "o" "r"
     = Raised IndexError.
Proof. split; vm_compute; reflexivity. Qed.

(** ** [code_reviews] *)

(** C8 (what the code returns).  [code_reviews] reads the name [key] before
    its first request, and nothing binds that name: whatever the platform
    holds, the call ends with a [NameError] and has issued no request. *)
Theorem code_reviews_raises (key : string) (R : Type)
    (pulls : Request -> Response (list PullRequest))
    (reviews : Request -> Response (list R)) (owner repo : string) (log : list Request) :
  code_reviews key pulls reviews owner repo log = (log, Raised NameError).
Proof. reflexivity. Qed.

(** * Further properties of the metrics *)

(** ** The per-day tables *)

Lemma tally_total (k : Z) (rows : list (Z * nat)) :
  count_sum (tally Z.compare k rows) = S (count_sum rows).
Proof.
  induction rows as [|[k' c] rest IH]; cbn [tally count_sum fold_right snd]; [reflexivity|].
  destruct (k ?= k')%Z; cbn [count_sum fold_right snd]; try lia.
  fold (count_sum (tally Z.compare k rest)). rewrite IH.
  fold (count_sum rest). lia.
Qed.

(** No cell is lost and none is counted twice. *)
Lemma groupby_size_total (keys : list Z) :
  count_sum (groupby_size Z.compare keys) = length keys.
Proof.
  unfold groupby_size.
  assert (forall rows, count_sum (fold_left (fun rows k => tally Z.compare k rows) keys rows)
                       = length keys + count_sum rows) as H.
  { induction keys as [|k keys IH]; intros rows; cbn [fold_left length]; [reflexivity|].
    rewrite IH, tally_total. lia. }
  rewrite H. cbn. lia.
Qed.

Lemma occurrences_positive (k : Z) (keys : list Z) : 0 < occurrences k keys -> k ∈ keys.
Proof.
  induction keys as [|k0 keys IH]; cbn [occurrences]; intros Hpos; [lia|].
  destruct (Z.eqb_spec k0 k) as [->|Hne].
  - apply elem_of_cons. left. reflexivity.
  - apply elem_of_cons. right. apply IH. lia.
Qed.

Lemma normalize_multiple (t : Z) : (normalize t mod day_ns = 0)%Z.
Proof. rewrite normalize_midnight. apply Z.mod_mul. unfold day_ns. lia. Qed.

Section Parsing.

Variable to_datetime : string -> option Z.

Lemma to_datetime_column_length (cells : list string) :
  forall ts, to_datetime_column to_datetime cells = Done ts -> length ts = length cells.
Proof.
  induction cells as [|s cells IH]; cbn [to_datetime_column]; intros ts Hts.
  - injection Hts as <-. reflexivity.
  - destruct (to_datetime s); [|discriminate].
    destruct (to_datetime_column to_datetime cells); try discriminate.
    injection Hts as <-. cbn [length]. f_equal. apply IH. reflexivity.
Qed.

(** The column parses unless one of its cells does not, and then the
    conversion raises a [ValueError]. *)
Lemma to_datetime_column_outcome (cells : list string) :
  (Forall (fun s => is_Some (to_datetime s)) cells
   /\ exists ts, to_datetime_column to_datetime cells = Done ts)
  \/ (Exists (fun s => to_datetime s = None) cells
      /\ to_datetime_column to_datetime cells = Raised ValueError).
Proof.
  induction cells as [|s cells IH]; cbn [to_datetime_column].
  - left. split; [constructor|eauto].
  - destruct (to_datetime s) as [t|] eqn:Hs.
    + destruct IH as [[Hall [ts Hts]]|[Hex Hraise]].
      * left. rewrite Hts. split; [constructor; [rewrite Hs; eauto|exact Hall]|eauto].
      * right. rewrite Hraise. split; [apply Exists_cons_tl, Hex|reflexivity].
    + right. split; [apply Exists_cons_hd, Hs|reflexivity].
Qed.

End Parsing.

(** X1. When every [created_at] of the response parses, [closed_issues]
    returns, after its one request, a table whose dates are strictly
    increasing midnights; each row counts the issues created on its day and
    counts at least one; every day on which an issue was created has a row;
    and the counts add up to the number of issues received. *)
Theorem closed_issues_table (key : string) (to_datetime : string -> option Z)
    (server : Request -> Response (list Issue)) (owner repo : string)
    (log : list Request) (ts : list Z) :
  to_datetime_column to_datetime
    (map created_at (json (server (get_request key (closed_issues_url owner repo)))))
  = Done ts ->
  exists rows,
    closed_issues key to_datetime server owner repo log
    = (log ++ [get_request key (closed_issues_url owner repo)], Done rows)
    /\ Sorted Z.lt (map fst rows)
    /\ (forall d c, (d, c) ∈ rows ->
          (d mod day_ns = 0)%Z /\ 0 < c /\ c = occurrences d (map normalize ts))
    /\ (forall t, t ∈ ts -> exists c, (normalize t, c) ∈ rows)
    /\ count_sum rows
       = length (json (server (get_request key (closed_issues_url owner repo)))).
Proof.
  intros Hparse.
  destruct (count_per_day_rows to_datetime _ ts Hparse) as (Hrun & Hs & Hrows & Hdays).
  exists (groupby_size Z.compare (map normalize ts)).
  split; [|split; [exact Hs|split; [|split; [exact Hdays|]]]].
  - unfold closed_issues. rewrite bind_get.
    fold (basic_auth key). fold (get_request key (closed_issues_url owner repo)).
    rewrite Hrun. reflexivity.
  - intros d c Hin. destruct (Hrows d c Hin) as [Hpos Hc]. split; [|split; assumption].
    assert (d ∈ map normalize ts) as Hd by (apply occurrences_positive; lia).
    apply list_elem_of_In, in_map_iff in Hd. destruct Hd as (t & <- & _).
    apply normalize_multiple.
  - rewrite groupby_size_total, length_map.
    rewrite (to_datetime_column_length to_datetime _ ts Hparse), length_map. reflexivity.
Qed.

Lemma closed_issues_table_witness :
  exists rows,
    closed_issues "k" iso8601_utc
      (serve [(closed_issues_url "o" "r",
               ([mkIssue "2024-01-02T09:30:00Z"; mkIssue "2024-01-01T08:00:00Z";
                 mkIssue "2024-01-01T23:00:00Z"], []))]) "o" "r" []
    = ([get_request "k" (closed_issues_url "o" "r")], Done rows)
    /\ count_sum rows = 3.
Proof.
  destruct (closed_issues_table "k" iso8601_utc
              (serve [(closed_issues_url "o" "r",
                       ([mkIssue "2024-01-02T09:30:00Z"; mkIssue "2024-01-01T08:00:00Z";
                         mkIssue "2024-01-01T23:00:00Z"], []))]) "o" "r" []
              [1704187800000000000; 1704096000000000000; 1704150000000000000]%Z)
    as (rows & Hrun & _ & _ & _ & Htotal).
  - vm_compute. reflexivity.
  - exists rows. split; [exact Hrun|exact Htotal].
Defined.

(** X2. When the [created_at] of some issue of the response does not parse,
    [closed_issues] raises the [ValueError] of the conversion after its one
    request and returns no table. *)
Theorem closed_issues_unparsed (key : string) (to_datetime : string -> option Z)
    (server : Request -> Response (list Issue)) (owner repo : string)
    (log : list Request) :
  Exists (fun issue => to_datetime (created_at issue) = None)
    (json (server (get_request key (closed_issues_url owner repo)))) ->
  closed_issues key to_datetime server owner repo log
  = (log ++ [get_request key (closed_issues_url owner repo)], Raised ValueError).
Proof.
  intros Hbad. unfold closed_issues. rewrite bind_get.
  fold (basic_auth key). fold (get_request key (closed_issues_url owner repo)).
  unfold count_per_day.
  destruct (to_datetime_column_outcome to_datetime
              (map created_at (json (server (get_request key (closed_issues_url owner repo))))))
    as [[Hall _]|[_ Hraise]].
  - exfalso. rewrite List.Exists_exists in Hbad. destruct Hbad as (issue & Hin & Hnone).
    rewrite List.Forall_forall in Hall.
    destruct (Hall (created_at issue) (in_map _ _ _ Hin)) as [t Ht]. congruence.
  - rewrite Hraise. reflexivity.
Qed.

Lemma closed_issues_unparsed_witness :
  closed_issues "k" iso8601_utc
    (serve [(closed_issues_url "o" "r",
             ([mkIssue "2024-01-01T08:00:00Z"; mkIssue "yesterday"], []))]) "o" "r" []
  = ([get_request "k" (closed_issues_url "o" "r")], Raised ValueError).
Proof.
  apply (closed_issues_unparsed "k" iso8601_utc).
  apply Exists_cons_tl, Exists_cons_hd. vm_compute. reflexivity.
Defined.

(** ** [code_commits] beyond the fetch *)

(** X3. Once the fetch loop of [code_commits] has ended with the commits of
    all pages: on an empty history the call raises a [ValueError] (the
    frame has no column to rename); on a history whose dates parse it
    returns a table with one row per day, and the counts add up to the
    number of commits fetched. *)
Theorem code_commits_table (key : string) (to_datetime : string -> option Z)
    (fuel : nat) (server : Request -> Response (list Commit)) (owner repo : string)
    (log log' : list Request) (commits : list Commit) :
  code_commits_fetch key fuel server owner repo log = (log', Done commits) ->
  (commits = [] ->
     code_commits key to_datetime fuel server owner repo log = (log', Raised ValueError))
  /\ (forall ts,
        commits <> [] ->
        to_datetime_column to_datetime (map commit_author_date commits) = Done ts ->
        exists rows,
          code_commits key to_datetime fuel server owner repo log = (log', Done rows)
          /\ Sorted Z.lt (map fst rows)
          /\ (forall d c, (d, c) ∈ rows -> 0 < c /\ c = occurrences d (map normalize ts))
          /\ count_sum rows = length commits).
Proof.
  intros Hfetch. split.
  - intros ->. unfold code_commits. rewrite (bind_done _ _ _ _ _ Hfetch). reflexivity.
  - intros ts Hne Hparse.
    destruct (count_per_day_rows to_datetime _ ts Hparse) as (Hrun & Hs & Hrows & _).
    exists (groupby_size Z.compare (map normalize ts)).
    split; [|split; [exact Hs|split; [exact Hrows|]]].
    + unfold code_commits. rewrite (bind_done _ _ _ _ _ Hfetch).
      destruct commits as [|c commits]; [congruence|].
      cbn [map] in *. rewrite Hrun. reflexivity.
    + rewrite groupby_size_total, length_map.
      rewrite (to_datetime_column_length to_datetime _ ts Hparse), length_map. reflexivity.
Qed.

Lemma code_commits_table_witness :
  code_commits "k" iso8601_utc 1 (serve []) "o" "r" []
  = ([get_request "k" (code_commits_url "o" "r" 0)], Raised ValueError).
Proof.
  destruct (code_commits_table "k" iso8601_utc 1 (serve []) "o" "r" []
              [get_request "k" (code_commits_url "o" "r" 0)] []) as [Hempty _].
  - vm_compute. reflexivity.
  - apply Hempty. reflexivity.
Defined.

(** ** Pagination over any number of pages *)

(** X4. Over a chain of pages of any length linked by their ["next"]
    relations, the fetch loop of [open_issues] asks for the initial URL and
    then for each URL of the chain, once each and in order, and returns the
    bodies of all the pages concatenated in that order. *)
Theorem open_issues_fetch_chain (key : string) (server : Request -> Response (list Issue))
    (owner repo : string) (urls : list string) (fuel : nat) (log : list Request) :
  link_chain key server (open_issues_url owner repo) urls ->
  length urls < fuel ->
  open_issues_fetch key fuel server owner repo log
  = (log ++ map (get_request key) (open_issues_url owner repo :: urls),
     Done (concat (map (fun u => json (server (get_request key u)))
                     (open_issues_url owner repo :: urls)))).
Proof.
  unfold open_issues_fetch. generalize (open_issues_url owner repo) as u.
  intros u Hchain Hfuel.
  rewrite <- (app_nil_l (concat _)). generalize (@nil Issue) as acc.
  revert u fuel log Hchain Hfuel.
  induction urls as [|u' urls IH]; intros u fuel log Hchain Hfuel acc;
    (destruct fuel as [|fuel]; [cbn [length] in Hfuel; lia|]).
  - cbn [link_chain] in Hchain.
    rewrite (open_issues_pages_last key server _ _ _ _ Hchain).
    cbn [map concat]. rewrite app_nil_r. reflexivity.
  - cbn [link_chain] in Hchain. destruct Hchain as [(next & Hnext & Hurl) Hrest].
    rewrite (open_issues_pages_next key server _ _ u' next _ _ Hnext Hurl).
    rewrite (IH u' fuel _ Hrest); [|cbn [length] in Hfuel; lia].
    cbn [map concat]. rewrite <- !app_assoc. reflexivity.
Qed.

Lemma open_issues_fetch_chain_witness :
  open_issues_fetch "k" 3 issue_pages_example "o" "r" []
  = (map (get_request "k")
       [open_issues_url "o" "r"; "https://api.example/p2"; "https://api.example/p3"],
     Done [mkIssue "2024-01-01T08:00:00Z"; mkIssue "2024-01-01T23:00:00Z";
           mkIssue "2024-01-03T00:00:00Z"]).
Proof.
  apply (open_issues_fetch_chain "k" issue_pages_example "o" "r"
           ["https://api.example/p2"; "https://api.example/p3"] 3 []).
  - cbn [link_chain]. split; [|split].
    + exists {[ "url" := "https://api.example/p2" ]}. split; vm_compute; reflexivity.
    + exists {[ "url" := "https://api.example/p3" ]}. split; vm_compute; reflexivity.
    + vm_compute. reflexivity.
  - cbn. lia.
Defined.

(** X5. [code_commits] has no bound of its own on the number of pages: when
    the platform never answers with an empty page, the loop is still
    running after any number of turns, having asked for the pages
    [0], [1], ... one after the other. *)
Theorem code_commits_fetch_unbounded (key : string)
    (server : Request -> Response (list Commit)) (owner repo : string)
    (fuel : nat) (log : list Request) :
  (forall i, json (server (get_request key (code_commits_url owner repo i))) <> []) ->
  code_commits_fetch key fuel server owner repo log
  = (log ++ map (fun i => get_request key (code_commits_url owner repo i)) (seq 0 fuel),
     OutOfFuel).
Proof.
  intros Hpages. unfold code_commits_fetch.
  generalize (@nil Commit) as acc. generalize 0 as i. revert log.
  induction fuel as [|fuel IH]; intros log i acc.
  - cbn. rewrite app_nil_r. reflexivity.
  - cbn [code_commits_pages]. rewrite bind_get.
    fold (basic_auth key). fold (get_request key (code_commits_url owner repo i)).
    specialize (Hpages i).
    destruct (json (server (get_request key (code_commits_url owner repo i))))
      as [|c page]; [congruence|].
    cbn [length Nat.eqb]. rewrite IH. cbn [seq map].
    rewrite <- app_assoc. replace (i + 1) with (S i) by lia. reflexivity.
Qed.

Lemma code_commits_fetch_unbounded_witness :
  code_commits_fetch "k" 3 (fun _ => mkResponse [mkCommit "2024-01-01T08:00:00Z"] ∅)
    "o" "r" []
  = (map (fun i => get_request "k" (code_commits_url "o" "r" i)) [0; 1; 2], OutOfFuel).
Proof.
  apply (code_commits_fetch_unbounded "k"
           (fun _ => mkResponse [mkCommit "2024-01-01T08:00:00Z"] ∅) "o" "r" 3 []).
  intros i. cbn. discriminate.
Defined.

(** X6. Over a chain of pages of the commit history of any length, linked
    by the cursor of the last edge of each page, the loop of [bus_factor]
    sends one query per page, the first with an empty cursor slot and each
    later one with the cursor text the previous page gave, and collects the
    author addresses of all the pages in order. *)
Theorem bus_factor_fetch_chain (key : string) (server : Request -> Response History)
    (owner repo : string) (cursors : list string) (fuel : nat) (log : list Request) :
  cursor_chain key server owner repo "" cursors ->
  length cursors < fuel ->
  bus_factor_fetch key fuel server owner repo log
  = (log ++ map (fun c => graphql_request key (query_text repo owner c)) ("" :: cursors),
     Done (concat (map (fun c => map email
                          (edges (json (server (graphql_request key
                                                  (query_text repo owner c))))))
                     ("" :: cursors)))).
Proof.
  unfold bus_factor_fetch. generalize "" as cur. intros cur Hchain Hfuel.
  rewrite <- (app_nil_l (concat _)). generalize (@nil string) as acc.
  revert cur fuel log Hchain Hfuel.
  induction cursors as [|cur' cursors IH]; intros cur fuel log Hchain Hfuel acc;
    (destruct fuel as [|fuel]; [cbn [length] in Hfuel; lia|]).
  - cbn [cursor_chain] in Hchain. destruct Hchain as [Hstop Hedges].
    destruct (bus_factor_pages_final key server owner repo fuel cur acc log Hstop)
      as (Hlog & _ & Hdone).
    specialize (Hdone Hedges).
    destruct (bus_factor_pages key (S fuel) server owner repo cur acc log) as [l o].
    cbn [fst snd] in Hlog, Hdone. subst l o.
    cbn [map concat]. rewrite app_nil_r. reflexivity.
  - cbn [cursor_chain] in Hchain. destruct Hchain as (Hmore & (e & Hlast & ->) & Hrest).
    rewrite (bus_factor_pages_edges key server owner repo _ _ _ _ e Hlast).
    cbv zeta. rewrite Hmore.
    rewrite (IH _ fuel _ Hrest); [|cbn [length] in Hfuel; lia].
    cbn [map concat]. rewrite <- !app_assoc. reflexivity.
Qed.

Lemma bus_factor_fetch_chain_witness :
  snd (bus_factor_fetch "k" 2 history_pages_example "o" "r" [])
  = Done ["a"; "a"; "a"; "b"; "c"].
Proof.
  rewrite (bus_factor_fetch_chain "k" history_pages_example "o" "r"
             [after_argument "c3"] 2 []).
  - vm_compute. reflexivity.
  - cbn [cursor_chain]. split; [vm_compute; reflexivity|]. split.
    + exists (mkEdge "c3" "a"). split; vm_compute; reflexivity.
    + split; [vm_compute; reflexivity|]. vm_compute. discriminate.
  - cbn. lia.
Defined.

(** ** The two counts of [bus_factor] *)

Section SortedShares.

Lemma Qsum_Permutation (l l' : list Q) : l ≡ₚ l' -> (Qsum l == Qsum l')%Q.
Proof.
  induction 1 as [|x l l' _ IH|x y l|l l' l'' _ IH1 _ IH2]; cbn [Qsum fold_right].
  - reflexivity.
  - fold (Qsum l) (Qsum l'). rewrite IH. reflexivity.
  - lra.
  - rewrite IH1. exact IH2.
Qed.

Lemma insert_sorted_Permutation (le : Q -> Q -> bool) (x : Q) (l : list Q) :
  insert_sorted le x l ≡ₚ x :: l.
Proof.
  induction l as [|y l IH]; cbn [insert_sorted]; [reflexivity|].
  destruct (le x y); [reflexivity|]. rewrite IH. apply Permutation_swap.
Qed.

Lemma sort_values_Permutation (ascending : bool) (l : list Q) :
  sort_values ascending l ≡ₚ l.
Proof.
  unfold sort_values. induction l as [|x l IH]; cbn [fold_right]; [reflexivity|].
  rewrite insert_sorted_Permutation, IH. reflexivity.
Qed.

Lemma sort_values_length (ascending : bool) (l : list Q) :
  length (sort_values ascending l) = length l.
Proof. apply Permutation_length, sort_values_Permutation. Qed.

(** Inserting into a column in decreasing order keeps it so. *)
Lemma insert_sorted_descending (x : Q) (l : list Q) :
  StronglySorted (fun a b => (b <= a)%Q) l ->
  StronglySorted (fun a b => (b <= a)%Q) (insert_sorted (fun a b => Qle_bool b a) x l).
Proof.
  induction l as [|y l IH]; cbn [insert_sorted]; intros Hs.
  - repeat constructor.
  - apply StronglySorted_inv in Hs. destruct Hs as [Hl Hy].
    destruct (Qle_bool y x) eqn:Hle.
    + apply Qle_bool_iff in Hle. constructor; [constructor; assumption|].
      constructor; [exact Hle|]. eapply Forall_impl; [exact Hy|].
      cbn. intros z Hz. lra.
    + assert (x <= y)%Q as Hxy.
      { destruct (Qlt_le_dec x y) as [Hlt|Hge]; [lra|].
        apply Qle_bool_iff in Hge. congruence. }
      constructor; [apply IH, Hl|].
      rewrite (insert_sorted_Permutation _ x l). constructor; assumption.
Qed.

Lemma sort_values_descending (l : list Q) :
  StronglySorted (fun a b => (b <= a)%Q) (sort_values false l).
Proof.
  unfold sort_values. induction l as [|x l IH]; cbn [fold_right]; [constructor|].
  apply insert_sorted_descending, IH.
Qed.

(** Below a bound [x], one more element of a column adds at most [x]. *)
Lemma Qsum_take_step (x : Q) (d : list Q) :
  forall k, Forall (fun y => (y <= x)%Q) d -> S k <= length d ->
            (Qsum (take (S k) d) <= x + Qsum (take k d))%Q.
Proof.
  induction d as [|y d IH]; intros k Hall Hk; [cbn in Hk; lia|].
  apply Forall_cons_1 in Hall. destruct Hall as [Hy Hd].
  destruct k as [|k].
  - cbn [firstn]. rewrite take_0. cbn [Qsum fold_right]. lra.
  - cbn [length] in Hk. specialize (IH k Hd ltac:(lia)).
    change (take (S (S k)) (y :: d)) with (y :: take (S k) d).
    change (take (S k) (y :: d)) with (y :: take k d).
    cbn [Qsum fold_right]. fold (Qsum (take (S k) d)) (Qsum (take k d)). lra.
Qed.

(** The first [k] elements of a decreasing column sum to at least as much
    as any [k] elements taken from it. *)
Lemma Qsum_take_descending (d : list Q) :
  forall s : list Q,
    StronglySorted (fun a b => (b <= a)%Q) d -> s ⊆+ d ->
    (Qsum s <= Qsum (take (length s) d))%Q.
Proof.
  induction d as [|x d IH]; intros s Hs Hsub.
  - apply submseteq_nil_r in Hsub. subst s. cbn. lra.
  - apply StronglySorted_inv in Hs. destruct Hs as [Hd Hx].
    apply submseteq_cons_r in Hsub. destruct Hsub as [Hsub|(s' & Hperm & Hsub)].
    + specialize (IH s Hd Hsub). pose proof (submseteq_length _ _ Hsub) as Hlen.
      destruct (length s) as [|k] eqn:Hk.
      * destruct s; [|discriminate]. cbn. lra.
      * change (take (S k) (x :: d)) with (x :: take k d).
        cbn [Qsum fold_right]. fold (Qsum (take k d)).
        pose proof (Qsum_take_step x d k Hx Hlen). lra.
    + rewrite (Qsum_Permutation _ _ Hperm), (Permutation_length Hperm).
      cbn [length]. change (take (S (length s')) (x :: d)) with (x :: take (length s') d).
      cbn [Qsum fold_right]. fold (Qsum s') (Qsum (take (length s') d)).
      specialize (IH s' Hd Hsub). lra.
Qed.

Lemma cumsum_from_lookup (l : list Q) :
  forall (acc : Q) (k : nat) (y : Q),
    cumsum_from acc l !! k = Some y -> (y == acc + Qsum (take (S k) l))%Q.
Proof.
  induction l as [|x l IH]; intros acc k y Hy; [discriminate|].
  cbn [cumsum_from] in Hy. cbv zeta in Hy. destruct k as [|k].
  - injection Hy as <-. cbn [firstn]. rewrite take_0. cbn [Qsum fold_right]. lra.
  - cbn [lookup list_lookup] in Hy. apply IH in Hy. rewrite Hy.
    change (take (S (S k)) (x :: l)) with (x :: take (S k) l).
    cbn [Qsum fold_right]. fold (Qsum (take (S k) l)). lra.
Qed.

Lemma cumsum_lookup (l : list Q) (k : nat) (y : Q) :
  cumsum l !! k = Some y -> (y == Qsum (take (S k) l))%Q.
Proof.
  destruct l as [|x l]; [discriminate|]. cbn [cumsum]. destruct k as [|k]; intros Hy.
  - injection Hy as <-. cbn [firstn]. rewrite take_0. cbn [Qsum fold_right]. lra.
  - cbn [lookup list_lookup] in Hy. apply cumsum_from_lookup in Hy. rewrite Hy.
    change (take (S (S k)) (x :: l)) with (x :: take (S k) l).
    cbn [Qsum fold_right]. fold (Qsum (take (S k) l)). lra.
Qed.

Lemma cumsum_from_length (l : list Q) : forall acc, length (cumsum_from acc l) = length l.
Proof. induction l as [|x l IH]; intros acc; cbn; [reflexivity|]. f_equal. apply IH. Qed.

Lemma cumsum_length (l : list Q) : length (cumsum l) = length l.
Proof. destruct l as [|x l]; cbn; [reflexivity|]. f_equal. apply cumsum_from_length. Qed.

(** Largest first, every running sum is at least the one of the same rank
    smallest first. *)
Lemma cumsum_descending_dominates (l : list Q) :
  Forall2 Qle (cumsum (sort_values true l)) (cumsum (sort_values false l)).
Proof.
  apply Forall2_same_length_lookup_2.
  - rewrite !cumsum_length, !sort_values_length. reflexivity.
  - intros k x y Hx Hy.
    pose proof (lookup_lt_Some _ _ _ Hx) as Hk.
    rewrite cumsum_length in Hk.
    apply cumsum_lookup in Hx. apply cumsum_lookup in Hy. rewrite Hx, Hy.
    pose proof (Qsum_take_descending (sort_values false l)
                  (take (S k) (sort_values true l)) (sort_values_descending l)) as H.
    rewrite length_take, Nat.min_l in H by lia. apply H.
    transitivity (sort_values true l).
    + apply sublist_submseteq, sublist_take.
    + apply Permutation_submseteq.
      rewrite !sort_values_Permutation. reflexivity.
Qed.

End SortedShares.

Section Counting.

Variable threshold : Q.

Lemma count_until_bounds (nums : list Q) :
  forall i, i <= count_until threshold nums i <= i + length nums
            /\ (nums <> [] -> i + 1 <= count_until threshold nums i).
Proof.
  induction nums as [|x nums IH]; intros i; cbn [count_until length].
  - split; [lia|congruence].
  - cbv zeta. destruct (Qle_bool threshold x).
    + split; [lia|intros _; lia].
    + destruct (IH (i + 1)) as [Hb _]. split; [lia|intros _; lia].
Qed.

(** Larger numbers are reached no later. *)
Lemma count_until_monotone (low high : list Q) :
  Forall2 Qle low high ->
  forall i, count_until threshold high i <= count_until threshold low i.
Proof.
  induction 1 as [|x y low high Hxy _ IH]; intros i; cbn [count_until]; [lia|].
  cbv zeta. destruct (Qle_bool threshold y) eqn:Hy.
  - destruct (Qle_bool threshold x); [lia|].
    destruct (count_until_bounds low (i + 1)) as [Hb _]. lia.
  - destruct (Qle_bool threshold x) eqn:Hx; [|apply IH].
    apply Qle_bool_iff in Hx.
    assert (Qle_bool threshold y = true) as Hy' by (apply Qle_bool_iff; lra).
    congruence.
Qed.

End Counting.

Lemma tally_length {K : Type} (cmp : K -> K -> comparison) (k : K) (rows : list (K * nat)) :
  1 <= length (tally cmp k rows) <= S (length rows).
Proof.
  induction rows as [|[k' c] rest IH]; cbn [tally length]; [lia|].
  destruct (cmp k k'); cbn [length]; lia.
Qed.

Lemma groupby_fold_length {K : Type} (cmp : K -> K -> comparison) (keys : list K) :
  forall rows : list (K * nat),
    length (fold_left (fun rows k => tally cmp k rows) keys rows) <= length keys + length rows
    /\ (1 <= length rows ->
        1 <= length (fold_left (fun rows k => tally cmp k rows) keys rows)).
Proof.
  induction keys as [|k keys IH]; intros rows; cbn [fold_left length]; [lia|].
  destruct (IH (tally cmp k rows)) as [Hle Hge].
  pose proof (tally_length cmp k rows). split; lia.
Qed.

(** A column with a cell groups into at least one row and at most as many
    rows as cells. *)
Lemma groupby_size_length {K : Type} (cmp : K -> K -> comparison) (keys : list K) :
  keys <> [] -> 1 <= length (groupby_size cmp keys) <= length keys.
Proof.
  intros Hne. unfold groupby_size.
  destruct (groupby_fold_length cmp keys []) as [Hle _]. cbn [length] in Hle.
  split; [|lia].
  destruct keys as [|k keys]; [congruence|]. cbn [fold_left].
  destruct (groupby_fold_length cmp keys (tally cmp k [])) as [_ Hge].
  apply Hge. pose proof (tally_length cmp k []). lia.
Qed.

Lemma shares_length (emails : list string) :
  emails <> [] -> 1 <= length (shares emails) <= length emails.
Proof.
  intros Hne. unfold shares. rewrite !length_map.
  apply groupby_size_length, Hne.
Qed.

(** A fetch that ends normally has read at least one address. *)
Lemma bus_factor_pages_nonempty (key : string) (server : Request -> Response History)
    (owner repo : string) (fuel : nat) :
  forall (cur : string) (acc : list string) (log log' : list Request) (emails : list string),
    bus_factor_pages key fuel server owner repo cur acc log = (log', Done emails) ->
    emails <> [].
Proof.
  induction fuel as [|fuel IH]; intros cur acc log log' emails Hrun; [discriminate|].
  destruct (last (edges (json (server (graphql_request key (query_text repo owner cur))))))
    as [e|] eqn:Hlast.
  - rewrite (bus_factor_pages_edges key server owner repo _ _ _ _ e Hlast) in Hrun.
    cbv zeta in Hrun.
    destruct (hasNextPage _); [eapply IH; exact Hrun|].
    injection Hrun as _ <-.
    destruct (edges (json (server (graphql_request key (query_text repo owner cur)))));
      [discriminate|].
    intros Hnil. apply app_eq_nil in Hnil. destruct Hnil as [_ Hnil]. discriminate.
  - apply last_None in Hlast.
    rewrite (bus_factor_pages_no_edge key server owner repo _ _ _ _ Hlast) in Hrun.
    discriminate.
Qed.

(** X7. Whenever [bus_factor] returns, the fetch has read at least one
    commit and the two counts are ordered: [1 <= worst <= best], and [best]
    is at most the number of distinct author addresses, itself at most the
    number of commits.  This holds for every threshold. *)
Theorem bus_factor_counts_ordered (key : string) (fuel : nat)
    (server : Request -> Response History) (owner repo : string) (threshold : Q)
    (log log' : list Request) (result : BusFactor) :
  bus_factor key fuel server owner repo threshold log = (log', Done result) ->
  exists emails,
    bus_factor_fetch key fuel server owner repo log = (log', Done emails)
    /\ emails <> []
    /\ 1 <= worst result
    /\ worst result <= best result
    /\ best result <= length (shares emails)
    /\ length (shares emails) <= length emails.
Proof.
  unfold bus_factor, mbind, Net_bind.
  destruct (bus_factor_fetch key fuel server owner repo log) as [l [emails|e|]] eqn:Hfetch;
    [|discriminate..].
  intros Hrun. assert (emails <> []) as Hne.
  { unfold bus_factor_fetch in Hfetch. eapply bus_factor_pages_nonempty, Hfetch. }
  unfold lift, bus_factor_table in Hrun. destruct emails as [|a emails]; [congruence|].
  injection Hrun as <- <-. exists (a :: emails). cbn [worst best].
  pose proof (shares_length (a :: emails) Hne) as Hlen.
  set (th := (threshold / 100)%Q). set (df := shares (a :: emails)) in *.
  destruct (count_until_bounds th (cumsum (sort_values false df)) 0) as [_ Hw].
  destruct (count_until_bounds th (cumsum (sort_values true df)) 0) as [[_ Hb] _].
  rewrite cumsum_length, sort_values_length in Hb.
  pose proof (count_until_monotone th _ _ (cumsum_descending_dominates df) 0) as Hord.
  assert (cumsum (sort_values false df) <> []) as Hcum.
  { intros Hnil. apply (f_equal length) in Hnil.
    rewrite cumsum_length, sort_values_length in Hnil. cbn [length] in Hnil. lia. }
  specialize (Hw Hcum). repeat split; try assumption; lia.
Qed.

Lemma bus_factor_counts_ordered_witness :
  exists emails,
    bus_factor_fetch "k" 2 history_pages_example "o" "r" []
    = ([graphql_request "k" (query_text "r" "o" "");
        graphql_request "k" (query_text "r" "o" (after_argument "c3"))], Done emails)
    /\ emails <> [].
Proof.
  destruct (bus_factor_counts_ordered "k" 2 history_pages_example "o" "r" 50 []
              [graphql_request "k" (query_text "r" "o" "");
               graphql_request "k" (query_text "r" "o" (after_argument "c3"))]
              (mkBusFactor 1 1)) as (emails & Hfetch & Hne & _).
  - vm_compute. reflexivity.
  - exists emails. split; assumption.
Defined.

(** ** [lines_of_code_changed] within the range of its columns *)

Section ExactLines.

Lemma rows_from_delta (stats : list WeekStat) :
  forall acc,
    map delta (rows_from acc stats)
    = map (fun w => wrap64 (week_additions w - wrap64 (week_deletions w * -1))) stats.
Proof.
  induction stats as [|w stats IH]; intros acc; cbn [rows_from map]; [reflexivity|].
  cbv zeta. cbn [delta]. f_equal. apply IH.
Qed.

Lemma lines_frame_delta (stats : list WeekStat) :
  map delta (lines_frame stats)
  = map (fun w => wrap64 (week_additions w - wrap64 (week_deletions w * -1))) stats.
Proof.
  rewrite lines_frame_rows. destruct stats as [|w stats]; [reflexivity|].
  cbv zeta. cbn [map delta]. f_equal. apply rows_from_delta.
Qed.

Lemma sum_Z_bound (b : Z) (l : list Z) :
  Forall (fun x => (- b <= x <= b)%Z) l ->
  (- (Z.of_nat (length l) * b) <= sum_Z l <= Z.of_nat (length l) * b)%Z.
Proof.
  induction 1 as [|x l Hx _ IH]; cbn [sum_Z fold_right length].
  - lia.
  - fold (sum_Z l). rewrite Nat2Z.inj_succ. lia.
Qed.

End ExactLines.

(** X10. When the additions and deletions of every week lie within
    [-2^31, 2^31) and there are at most [2^30] weeks, the 64-bit columns of
    [lines_of_code_changed] never wrap: in every row [deletions] is the
    exact negation of the input, [delta] the exact sum of the additions and
    the input deletions, and [total_lines] the exact sum of these net
    changes up to the row. *)
Theorem lines_frame_exact (stats : list WeekStat) :
  Forall (fun w => (- 2 ^ 31 <= week_additions w < 2 ^ 31)%Z
                   /\ (- 2 ^ 31 <= week_deletions w < 2 ^ 31)%Z) stats ->
  (Z.of_nat (length stats) <= 2 ^ 30)%Z ->
  forall (i : nat) (w : WeekStat),
    stats !! i = Some w ->
    exists r, lines_frame stats !! i = Some r
      /\ deletions r = (- week_deletions w)%Z
      /\ delta r = net_change w
      /\ total_lines r = sum_Z (map net_change (take (S i) stats)).
Proof.
  intros Hsmall Hlen i w Hw.
  destruct (lines_frame_lookup stats i w Hw) as (r & Hr & Ha & Hd & Hdl & Ht).
  assert (Hw' : (- 2 ^ 31 <= week_additions w < 2 ^ 31)%Z
                /\ (- 2 ^ 31 <= week_deletions w < 2 ^ 31)%Z).
  { rewrite List.Forall_forall in Hsmall. apply Hsmall.
    apply list_elem_of_In, list_elem_of_lookup. eauto. }
  assert (Hdeltas : map delta (lines_frame stats) = map net_change stats).
  { rewrite lines_frame_delta. apply map_ext_Forall.
    eapply Forall_impl; [exact Hsmall|]. cbn. intros w0 [Ha0 Hd0]. unfold net_change.
    rewrite (wrap64_small (week_deletions w0 * -1)) by lia.
    rewrite wrap64_small by lia. lia. }
  exists r. split; [exact Hr|]. split; [|split].
  - rewrite Hd. rewrite wrap64_small by lia. lia.
  - rewrite Hdl, Ha, Hd. unfold net_change.
    rewrite (wrap64_small (week_deletions w * -1)) by lia. rewrite wrap64_small by lia. lia.
  - rewrite Ht, <- firstn_map, Hdeltas, firstn_map. apply wrap64_small.
    pose proof (sum_Z_bound (2 ^ 32) (map net_change (take (S i) stats))) as Hb.
    rewrite length_map in Hb.
    assert (length (take (S i) stats) <= length stats) as Hle
      by (rewrite length_take; lia).
    assert (Forall (fun x => (- 2 ^ 32 <= x <= 2 ^ 32)%Z)
              (map net_change (take (S i) stats))) as Hall.
    { apply List.Forall_map. apply Forall_take.
      eapply Forall_impl; [exact Hsmall|]. cbn. unfold net_change. intros; lia. }
    specialize (Hb Hall). nia.
Qed.

Lemma lines_frame_exact_witness :
  exists r, lines_frame [mkWeekStat 0 10 (-4); mkWeekStat 604800 5 (-1)] !! 1 = Some r
    /\ deletions r = 1%Z /\ delta r = 4%Z /\ total_lines r = 10%Z.
Proof.
  apply (lines_frame_exact [mkWeekStat 0 10 (-4); mkWeekStat 604800 5 (-1)]
           ltac:(repeat constructor; cbn; lia) ltac:(cbn; lia) 1
           (mkWeekStat 604800 5 (-1)) eq_refl).
Defined.

(** ** [contributors_gender]: failure and join *)


(** X11. [contributors_gender] fails exactly on a blank name: when some
    contributor has a name that is set and made of white space only (the
    empty name included), the call raises an [IndexError], wherever that
    contributor stands in the list; otherwise it returns a table. *)
Theorem contributors_gender_outcome (get_contributors : string -> list NamedUser)
    (name_gender : list (pystr * pystr)) (owner repo : string) :
  (Exists blank_name (get_contributors (owner +:+ "/" +:+ repo)) ->
   contributors_gender get_contributors name_gender owner repo = Raised IndexError)
  /\ (~ Exists blank_name (get_contributors (owner +:+ "/" +:+ repo)) ->
      contributors_gender get_contributors name_gender owner repo
      = Done (merge_inner (omap first_word (get_contributors (owner +:+ "/" +:+ repo)))
                name_gender)).
Proof.
  unfold contributors_gender. split; intros H.
  - rewrite (first_names_blank _ [] H). reflexivity.
  - rewrite (first_names_words _ []); [reflexivity|].
    apply List.Forall_forall. intros c Hc n Hn Hsplit. apply H.
    apply List.Exists_exists. exists c. split; [exact Hc|].
    exists n. split; [exact Hn|]. apply py_split_nil, Hsplit.
Qed.

(** X12. The table of [contributors_gender], when it returns one, is the
    inner join: a row of the reference table is returned exactly when its
    name is the first word of the name of some contributor.  A contributor
    whose first word the reference table lacks gives no row and no error. *)
Theorem contributors_gender_join (get_contributors : string -> list NamedUser)
    (name_gender : list (pystr * pystr)) (owner repo : string)
    (rows : list (pystr * pystr)) :
  contributors_gender get_contributors name_gender owner repo = Done rows ->
  forall row,
    row ∈ rows
    <-> row ∈ name_gender
        /\ exists c, c ∈ get_contributors (owner +:+ "/" +:+ repo)
                     /\ first_word c = Some (fst row).
Proof.
  intros Hrun row. unfold contributors_gender in Hrun.
  destruct (first_names (get_contributors (owner +:+ "/" +:+ repo)) []) as [names|e|]
    eqn:Hnames; try discriminate.
  injection Hrun as <-. apply first_names_done in Hnames. cbn [app] in Hnames. subst names.
  rewrite merge_inner_elem, list_elem_of_omap. tauto.
Qed.

Lemma contributors_gender_join_witness :
  (text "Jane", text "female")
  ∈ [(text "Jane", text "female"); ([197; 115; 97]%N, text "female")]
  <-> (text "Jane", text "female")
      ∈ [(text "Jane", text "female"); (text "John", text "male");
         ([197; 115; 97]%N, text "female")]
      /\ exists c, c ∈ [mkNamedUser (Some (text "Jane Doe")); mkNamedUser None;
                        mkNamedUser (Some (text "Xyzzy Unknown"));
                        mkNamedUser (Some [197; 115; 97; 32; 66; 101; 114; 103]%N)]
                   /\ first_word c = Some (text "Jane").
Proof.
  apply (contributors_gender_join
           (fun _ => [mkNamedUser (Some (text "Jane Doe")); mkNamedUser None;
                      mkNamedUser (Some (text "Xyzzy Unknown"));
                      mkNamedUser (Some [197; 115; 97; 32; 66; 101; 114; 103]%N)])
           [(text "Jane", text "female"); (text "John", text "male");
            ([197; 115; 97]%N, text "female")] "o" "r"
           [(text "Jane", text "female"); ([197; 115; 97]%N, text "female")]).
  vm_compute. reflexivity.
Defined.

(** ** The requests of a call *)

Section Requests.

Variable P : Request -> Prop.

Lemma sends_only_pure {A : Type} (o : outcome A) : sends_only P (lift o).
Proof. intros log. exists []. rewrite app_nil_r. split; [reflexivity|constructor]. Qed.

Lemma sends_only_bind {A B : Type} (m : Net A) (f : A -> Net B) :
  sends_only P m -> (forall a, sends_only P (f a)) -> sends_only P (m ≫= f).
Proof.
  intros Hm Hf log. destruct (Hm log) as (new & Hlog & Hnew).
  unfold mbind, Net_bind. destruct (m log) as [log' [a|e|]]; cbn [fst] in Hlog; subst log'.
  - destruct (Hf a (log ++ new)) as (new' & Hlog' & Hnew').
    exists (new ++ new'). rewrite Hlog', <- app_assoc.
    split; [reflexivity|apply Forall_app; split; assumption].
  - exists new. split; [reflexivity|exact Hnew].
  - exists new. split; [reflexivity|exact Hnew].
Qed.

Lemma sends_only_get {J : Type} (server : Request -> Response J) (u : string)
    (a : string * string) :
  P (mkRequest GET u a None) -> sends_only P (requests_get server u a).
Proof. intros HP log. eexists. split; [reflexivity|]. repeat constructor. exact HP. Qed.

Lemma sends_only_post {J : Type} (server : Request -> Response J) (u : string)
    (a : string * string) (q : string) :
  P (mkRequest POST u a (Some q)) -> sends_only P (requests_post server u a q).
Proof. intros HP log. eexists. split; [reflexivity|]. repeat constructor. exact HP. Qed.

End Requests.

Section Authentication.

Variable key : string.

Lemma code_commits_pages_authenticated (server : Request -> Response (list Commit))
    (owner repo : string) (fuel : nat) :
  forall i acc,
    sends_only (authenticated key) (code_commits_pages key fuel server owner repo i acc).
Proof.
  induction fuel as [|fuel IH]; intros i acc; cbn [code_commits_pages].
  - apply (sends_only_pure _ OutOfFuel).
  - apply sends_only_bind; [apply sends_only_get; reflexivity|].
    intros response. destruct (length (json response) =? 0).
    + apply (sends_only_pure _ (Done acc)).
    + apply IH.
Qed.

Lemma open_issues_pages_authenticated (server : Request -> Response (list Issue))
    (fuel : nat) :
  forall u acc, sends_only (authenticated key) (open_issues_pages key fuel server u acc).
Proof.
  induction fuel as [|fuel IH]; intros u acc; cbn [open_issues_pages].
  - apply (sends_only_pure _ OutOfFuel).
  - apply sends_only_bind; [apply sends_only_get; reflexivity|].
    intros response. destruct (links response !! "next") as [next|].
    + destruct (next !! "url") as [u'|]; [apply IH|].
      apply (sends_only_pure _ (Raised KeyError)).
    + apply (sends_only_pure _ (Done _)).
Qed.

Lemma bus_factor_pages_authenticated (server : Request -> Response History)
    (owner repo : string) (fuel : nat) :
  forall cur acc,
    sends_only (authenticated key) (bus_factor_pages key fuel server owner repo cur acc).
Proof.
  induction fuel as [|fuel IH]; intros cur acc; cbn [bus_factor_pages].
  - apply (sends_only_pure _ OutOfFuel).
  - apply sends_only_bind; [apply sends_only_post; reflexivity|].
    intros r. destruct (last (edges (json r))) as [e|].
    + destruct (hasNextPage (json r)); [apply IH|apply (sends_only_pure _ (Done _))].
    + apply (sends_only_pure _ (Raised IndexError)).
Qed.

End Authentication.

(** X13. Whatever the platform answers and however the call ends (a table,
    an exception, or a loop still running), each metric keeps the log of
    earlier requests and adds to it only requests that carry the basic-auth
    pair [("user", GITHUB_API_KEY)]. *)
Theorem every_request_authenticated (key : string) (to_datetime : string -> option Z)
    (fuel : nat) (owner repo : string) (threshold : Q) :
  (forall server,
      sends_only (authenticated key) (closed_issues key to_datetime server owner repo))
  /\ (forall server,
        sends_only (authenticated key) (code_commits key to_datetime fuel server owner repo))
  /\ (forall server, sends_only (authenticated key) (contributors key server owner repo))
  /\ (forall server,
        sends_only (authenticated key) (lines_of_code_changed key server owner repo))
  /\ (forall server,
        sends_only (authenticated key) (open_issues key to_datetime fuel server owner repo))
  /\ (forall server,
        sends_only (authenticated key) (bus_factor key fuel server owner repo threshold)).
Proof.
  repeat split; intros server.
  - unfold closed_issues. apply sends_only_bind; [apply sends_only_get; reflexivity|].
    intros response. apply sends_only_pure.
  - unfold code_commits, code_commits_fetch.
    apply sends_only_bind; [apply code_commits_pages_authenticated|].
    intros commits. destruct (map commit_author_date commits).
    + apply (sends_only_pure _ (Raised ValueError)).
    + apply sends_only_pure.
  - unfold contributors. apply sends_only_bind; [apply sends_only_get; reflexivity|].
    intros response. apply (sends_only_pure _ (Done _)).
  - unfold lines_of_code_changed.
    apply sends_only_bind; [apply sends_only_get; reflexivity|].
    intros response. apply (sends_only_pure _ (Done _)).
  - unfold open_issues, open_issues_fetch.
    apply sends_only_bind; [apply open_issues_pages_authenticated|].
    intros issues. apply sends_only_pure.
  - unfold bus_factor, bus_factor_fetch.
    apply sends_only_bind; [apply bus_factor_pages_authenticated|].
    intros emails. apply sends_only_pure.
Qed.

(** ** [open_issues] beyond the fetch *)

(** X14. Once the fetch loop of [open_issues] has ended with the issues of
    all pages and their dates parse, the call returns a table with one row
    per day, increasing in date, whose counts add up to the number of
    issues fetched; with no issue at all it returns the empty table, where
    [code_commits] raises. *)
Theorem open_issues_table (key : string) (to_datetime : string -> option Z)
    (fuel : nat) (server : Request -> Response (list Issue)) (owner repo : string)
    (log log' : list Request) (issues : list Issue) (ts : list Z) :
  open_issues_fetch key fuel server owner repo log = (log', Done issues) ->
  to_datetime_column to_datetime (map created_at issues) = Done ts ->
  exists rows,
    open_issues key to_datetime fuel server owner repo log = (log', Done rows)
    /\ Sorted Z.lt (map fst rows)
    /\ (forall d c, (d, c) ∈ rows -> 0 < c /\ c = occurrences d (map normalize ts))
    /\ count_sum rows = length issues
    /\ (issues = [] -> rows = []).
Proof.
  intros Hfetch Hparse.
  destruct (count_per_day_rows to_datetime _ ts Hparse) as (Hrun & Hs & Hrows & _).
  exists (groupby_size Z.compare (map normalize ts)).
  split; [|split; [exact Hs|split; [exact Hrows|split]]].
  - unfold open_issues. rewrite (bind_done _ _ _ _ _ Hfetch), Hrun. reflexivity.
  - rewrite groupby_size_total, length_map.
    rewrite (to_datetime_column_length to_datetime _ ts Hparse), length_map. reflexivity.
  - intros ->. cbn in Hparse. injection Hparse as <-. reflexivity.
Qed.

Lemma open_issues_table_witness :
  exists rows,
    open_issues "k" iso8601_utc 3 issue_pages_example "o" "r" []
    = (map (get_request "k")
         [open_issues_url "o" "r"; "https://api.example/p2"; "https://api.example/p3"],
       Done rows)
    /\ count_sum rows = 3.
Proof.
  destruct (open_issues_table "k" iso8601_utc 3 issue_pages_example "o" "r" []
              (map (get_request "k")
                 [open_issues_url "o" "r"; "https://api.example/p2";
                  "https://api.example/p3"])
              [mkIssue "2024-01-01T08:00:00Z"; mkIssue "2024-01-01T23:00:00Z";
               mkIssue "2024-01-03T00:00:00Z"]
              [1704096000000000000; 1704150000000000000; 1704240000000000000]%Z)
    as (rows & Hrun & _ & _ & Htotal & _).
  - vm_compute. reflexivity.
  - vm_compute. reflexivity.
  - exists rows. split; [exact Hrun|exact Htotal].
Defined.
